(** * Paint application: layer stores, grid and replay tracker

    A shallow embedding of [layer_store.py], [grid.py] and [replay.py].
    Python objects that are mutated in place become explicit state passing;
    a call that may raise returns a [result]. *)

From Stdlib Require Import ZArith NArith String Ascii.
From Stdlib Require OrderedTypeEx.
From stdpp Require Import base tactics option list sorting.

Local Open Scope nat_scope.
#[local] Set Warnings "-abstract-large-number".

(** ** Exceptions and fallible computations *)

Inductive exn : Type :=
  | Exception (msg : string)
  | KeyError
  | IndexError
  | TypeError
  | AssertionError.

(** The outcome of running a piece of Python: a value, a raised exception, or
    [OutOfFuel] when a [while] loop was cut off by its iteration budget. *)
Inductive result (A : Type) : Type :=
  | Ok (a : A)
  | Raise (e : exn)
  | OutOfFuel.

Arguments Ok {A} a.
Arguments Raise {A} e.
Arguments OutOfFuel {A}.

#[global] Instance result_ret : MRet result := fun A a => Ok a.

#[global] Instance result_bind : MBind result := fun A B k m =>
  match m with
  | Ok a => k a
  | Raise e => Raise e
  | OutOfFuel => OutOfFuel
  end.

(** [while cond: body], cut off after [fuel] evaluations of the condition. *)
Fixpoint while {S : Type} (fuel : nat) (cond : S -> bool)
    (body : S -> result S) (s : S) : result S :=
  match fuel with
  | O => OutOfFuel
  | S fuel' =>
      if cond s then s' ← body s; while fuel' cond body s' else Ok s
  end.

(** ** Layers *)

Definition colour : Type := Z * Z * Z.

Module Layer.
(** Modelled from the spec: [layer_util.Layer] is not part of the sources.
    A layer is an immutable value with an index (an integer >= 0), a display
    name and a pure colour transform [apply(color, timestamp, x, y)]. *)
Record t : Type := mk {
  index : N;
  name : string;
  apply : colour -> Z -> Z -> Z -> colour
}.

(** Modelled from the spec: identity of a layer is by index. *)
Definition eqb (a b : t) : bool := N.eqb (index a) (index b).
End Layer.

(** ** Primitive containers *)

Module ArrayR.
(** Modelled from the spec: [data_structures.referential_array.ArrayR] is not
    part of the sources. A fixed-length array whose slots start as [None];
    reading or writing out of range fails with an IndexError. *)
Abbreviation t A := (list (option A)) (only parsing).

Definition new {A : Type} (length : nat) : t A := replicate length None.

Definition len {A : Type} (self : t A) : nat := length self.

Definition getitem {A : Type} (self : t A) (i : nat) : result (option A) :=
  match self !! i with
  | Some v => Ok v
  | None => Raise IndexError
  end.

Definition setitem {A : Type} (self : t A) (i : nat) (v : A) : result (t A) :=
  if decide (i < length self) then Ok (<[i := Some v]> self)
  else Raise IndexError.
End ArrayR.

Module CircularQueue.
(** Modelled from the spec: [data_structures.queue_adt.CircularQueue] is not
    part of the sources. A bounded FIFO: [append] fails when full, [serve]
    returns the oldest item and fails when empty. [items] lists the content
    oldest first. *)
Record t (A : Type) : Type := mk {
  capacity : nat;
  items : list A
}.
Arguments mk {A} capacity items.
Arguments capacity {A} _.
Arguments items {A} _.

Definition new {A : Type} (max_capacity : nat) : t A := mk max_capacity [].

Definition len {A : Type} (self : t A) : nat := length (items self).

Definition is_empty {A : Type} (self : t A) : bool := Nat.eqb (len self) 0.

Definition is_full {A : Type} (self : t A) : bool :=
  Nat.eqb (len self) (capacity self).

Definition append {A : Type} (self : t A) (item : A) : result (t A) :=
  if is_full self then Raise (Exception "Queue is full")
  else Ok (mk (capacity self) (items self ++ [item])).

Definition serve {A : Type} (self : t A) : result (A * t A) :=
  match items self with
  | [] => Raise (Exception "Queue is empty")
  | item :: rest => Ok (item, mk (capacity self) rest)
  end.

Definition clear {A : Type} (self : t A) : t A := mk (capacity self) [].
End CircularQueue.

Module ArrayStack.
(** Modelled from the spec: [data_structures.stack_adt.ArrayStack] is not
    part of the sources. A bounded LIFO: [push] fails when full, [pop]
    returns the newest item and fails when empty. [items] lists the content
    newest first. *)
Record t (A : Type) : Type := mk {
  capacity : nat;
  items : list A
}.
Arguments mk {A} capacity items.
Arguments capacity {A} _.
Arguments items {A} _.

Definition new {A : Type} (max_capacity : nat) : t A := mk max_capacity [].

Definition len {A : Type} (self : t A) : nat := length (items self).

Definition is_empty {A : Type} (self : t A) : bool := Nat.eqb (len self) 0.

Definition is_full {A : Type} (self : t A) : bool :=
  Nat.eqb (len self) (capacity self).

Definition push {A : Type} (self : t A) (item : A) : result (t A) :=
  if is_full self then Raise (Exception "Stack is full")
  else Ok (mk (capacity self) (item :: items self)).

Definition pop {A : Type} (self : t A) : result (A * t A) :=
  match items self with
  | [] => Raise (Exception "Stack is empty")
  | item :: rest => Ok (item, mk (capacity self) rest)
  end.
End ArrayStack.

Module BSet.
(** Modelled from the spec: [data_structures.bset.BSet] is not part of the
    sources. A bitset over positive integers: item [i] is bit [i - 1] of
    [elems]. [remove] fails with a KeyError when the item is absent. *)
Record t : Type := mk { elems : N }.

Definition new : t := mk 0.

Definition contains (self : t) (item : N) : bool :=
  N.eqb (N.land (N.shiftr (elems self) (item - 1)) 1) 1.

Definition add (self : t) (item : N) : t :=
  mk (N.lor (elems self) (N.shiftl 1 (item - 1))).

Definition remove (self : t) (item : N) : result t :=
  if contains self item
  then Ok (mk (N.lxor (elems self) (N.shiftl 1 (item - 1))))
  else Raise KeyError.
End BSet.

Module ListItem.
(** Modelled from the spec: [data_structures.sorted_list_adt.ListItem] is not
    part of the sources. An item of a sorted list: a value and its sort
    key, built as [ListItem(value, key)]. *)
Record t : Type := mk { value : N; key : string }.
End ListItem.

Module ArraySortedList.
(** Modelled from the spec: [data_structures.array_sorted_list] is not part
    of the sources. A list kept in ascending order of key by sorted
    insertion, indexable by rank. *)
Abbreviation t := (list ListItem.t) (only parsing).

Definition new (max_capacity : nat) : t := [].

Definition len (self : t) : nat := length self.

(** The new item goes in front of the first item whose key is not smaller. *)
Fixpoint add (self : t) (item : ListItem.t) : t :=
  match self with
  | [] => [item]
  | h :: rest =>
      if String.ltb (ListItem.key h) (ListItem.key item)
      then h :: add rest item
      else item :: h :: rest
  end.

Definition getitem (self : t) (i : nat) : result ListItem.t :=
  match self !! i with
  | Some item => Ok item
  | None => Raise IndexError
  end.
End ArraySortedList.

(** ** Layer stores ([layer_store.py]) *)

Module SetLayerStore.
Record t : Type := mk {
  layer : option Layer.t;
  on_special : bool
}.

Definition init : t := mk None false.

(** [layer != self.layer], where [self.layer] may be [None]. *)
Definition differs (new_layer : Layer.t) (held : option Layer.t) : bool :=
  match held with
  | None => true
  | Some old => negb (Layer.eqb new_layer old)
  end.

Definition add (self : t) (layer : Layer.t) : bool * t :=
  let flag := differs layer self.(SetLayerStore.layer) in
  (flag, mk (Some layer) self.(on_special)).

Section WithInvert.
(** The [invert] layer of the [layers] module, applied in special mode. *)
Variable invert : Layer.t.

Definition get_color (self : t) (start : colour) (timestamp x y : Z) : colour :=
  let colour0 := start in
  let colour1 :=
    match self.(layer) with
    | Some l => Layer.apply l start timestamp x y
    | None => colour0
    end in
  if self.(on_special) then Layer.apply invert colour1 timestamp x y
  else colour1.
End WithInvert.

Definition erase (self : t) (layer : Layer.t) : bool * t :=
  match self.(SetLayerStore.layer) with
  | None => (false, self)
  | Some _ => (true, mk None self.(on_special))
  end.

Definition special (self : t) : t :=
  mk self.(layer) (negb self.(on_special)).
End SetLayerStore.

Module AdditiveLayerStore.
Record t : Type := mk { layers : CircularQueue.t Layer.t }.

Section WithCatalog.
(** The catalog returned by [get_layers()]. *)
Variable get_layers : list Layer.t.

Definition init : t := mk (CircularQueue.new (length get_layers * 100)).
End WithCatalog.

Definition add (self : t) (layer : Layer.t) : result (bool * t) :=
  if CircularQueue.is_full self.(layers) then Ok (false, self)
  else
    q ← CircularQueue.append self.(layers) layer;
    Ok (true, mk q).

(** The body of the [for] loop of [get_color], run [n] times. *)
Fixpoint get_color_loop (n : nat) (q : CircularQueue.t Layer.t)
    (colour0 : colour) (timestamp x y : Z)
    : result (colour * CircularQueue.t Layer.t) :=
  match n with
  | O => Ok (colour0, q)
  | S n' =>
      '(current_layer, q1) ← CircularQueue.serve q;
      q2 ← CircularQueue.append q1 current_layer;
      get_color_loop n' q2 (Layer.apply current_layer colour0 timestamp x y)
        timestamp x y
  end.

Definition get_color (self : t) (start : colour) (timestamp x y : Z)
    : result (colour * t) :=
  '(c, q) ← get_color_loop (CircularQueue.len self.(layers)) self.(layers)
              start timestamp x y;
  Ok (c, mk q).

Definition erase (self : t) (layer : Layer.t) : bool * t :=
  match CircularQueue.serve self.(layers) with
  | Ok (_, q) => (true, mk q)
  | _ => (false, self)
  end.

(** State of the two loops of [special]: the queue and the helper stack. *)
Definition drain_cond (s : CircularQueue.t Layer.t * ArrayStack.t Layer.t) : bool :=
  negb (CircularQueue.is_empty (fst s)).

Definition drain_body (s : CircularQueue.t Layer.t * ArrayStack.t Layer.t)
    : result (CircularQueue.t Layer.t * ArrayStack.t Layer.t) :=
  '(item, q) ← CircularQueue.serve (fst s);
  st ← ArrayStack.push (snd s) item;
  Ok (q, st).

Definition refill_cond (s : CircularQueue.t Layer.t * ArrayStack.t Layer.t) : bool :=
  negb (ArrayStack.is_empty (snd s)).

Definition refill_body (s : CircularQueue.t Layer.t * ArrayStack.t Layer.t)
    : result (CircularQueue.t Layer.t * ArrayStack.t Layer.t) :=
  '(item, st) ← ArrayStack.pop (snd s);
  q ← CircularQueue.append (fst s) item;
  Ok (q, st).

(** [special], with each [while] loop given [fuel] iterations. *)
Definition special (fuel : nat) (self : t) : result t :=
  let aux_stack := ArrayStack.new (CircularQueue.len self.(layers)) in
  s1 ← while fuel drain_cond drain_body (self.(layers), aux_stack);
  s2 ← while fuel refill_cond refill_body s1;
  Ok (mk (fst s2)).
End AdditiveLayerStore.

Module SequenceLayerStore.
Record t : Type := mk { layers : BSet.t }.

Definition init : t := mk BSet.new.

Definition add (self : t) (layer : Layer.t) : bool * t :=
  let index := (Layer.index layer + 1)%N in
  let flag := negb (BSet.contains self.(layers) index) in
  (flag, mk (BSet.add self.(layers) index)).

Definition erase (self : t) (layer : Layer.t) : bool * t :=
  let index := (Layer.index layer + 1)%N in
  match BSet.remove self.(layers) index with
  | Ok bs => (true, mk bs)
  | _ => (false, self)
  end.

Section WithCatalog.
(** The catalog returned by [get_layers()]. *)
Variable get_layers : list Layer.t.

(** [get_layers()[i]] *)
Definition catalog_getitem (i : nat) : result Layer.t :=
  match get_layers !! i with
  | Some l => Ok l
  | None => Raise IndexError
  end.

(** One iteration of the loop of [get_color]: the [try] block asserts the
    membership and applies the layer; any exception skips the index. *)
Definition get_color_step (self : t) (timestamp x y : Z)
    (colour0 : colour) (index : nat) : colour :=
  let attempt : result colour :=
    if BSet.contains self.(layers) (N.of_nat index) then
      l ← catalog_getitem (index - 1);
      Ok (Layer.apply l colour0 timestamp x y)
    else Raise AssertionError in
  match attempt with
  | Ok c => c
  | _ => colour0
  end.

Definition get_color (self : t) (start : colour) (timestamp x y : Z) : colour :=
  foldl (get_color_step self timestamp x y) start (seq 1 (length get_layers)).

(** The loop of [special] over the indices still to visit. *)
Fixpoint special_loop (self : t) (indices : list nat)
    (sorted_layer_names : ArraySortedList.t) : result ArraySortedList.t :=
  match indices with
  | [] => Ok sorted_layer_names
  | index :: rest =>
      if BSet.contains self.(layers) (N.of_nat index) then
        l ← catalog_getitem (index - 1);
        special_loop self rest
          (ArraySortedList.add sorted_layer_names
             (ListItem.mk (N.of_nat index) (Layer.name l)))
      else special_loop self rest sorted_layer_names
  end.

Definition special (self : t) : result t :=
  sorted_layer_names ←
    special_loop self (seq 1 (length get_layers))
      (ArraySortedList.new (length get_layers));
  if 0 <? ArraySortedList.len sorted_layer_names then
    item ← ArraySortedList.getitem sorted_layer_names
             ((ArraySortedList.len sorted_layer_names - 1) / 2);
    bs ← BSet.remove self.(layers) (ListItem.value item);
    Ok (mk bs)
  else Ok self.
End WithCatalog.
End SequenceLayerStore.

(** A grid square holds one of the three layer stores. *)
Inductive LayerStore : Type :=
  | SetStore (s : SetLayerStore.t)
  | AdditiveStore (s : AdditiveLayerStore.t)
  | SequenceStore (s : SequenceLayerStore.t).

(** ** The grid ([grid.py]) *)

Module Grid.
Definition DRAW_STYLE_SET : string := "SET".
Definition DRAW_STYLE_ADD : string := "ADD".
Definition DRAW_STYLE_SEQUENCE : string := "SEQUENCE".
Definition DRAW_STYLE_OPTIONS : list string :=
  [DRAW_STYLE_SET; DRAW_STYLE_ADD; DRAW_STYLE_SEQUENCE].

Definition DEFAULT_BRUSH_SIZE : Z := 2.
Definition MAX_BRUSH : Z := 5.
Definition MIN_BRUSH : Z := 0.

Record t : Type := mk {
  draw_style : string;
  x : nat;
  y : nat;
  brush_size : Z;
  grid : ArrayR.t (ArrayR.t LayerStore)
}.

Section WithCatalog.
Variable get_layers : list Layer.t.

(** The [if]/[elif]/[else] choosing the store of a square. *)
Definition new_store (draw_style : string) : LayerStore :=
  if String.eqb draw_style DRAW_STYLE_SET then
    SetStore SetLayerStore.init
  else if String.eqb draw_style DRAW_STYLE_ADD then
    AdditiveStore (AdditiveLayerStore.init get_layers)
  else SequenceStore SequenceLayerStore.init.

(** [grid[i][j] = v]: the row object is fetched and updated in place. *)
Definition set_cell (g : ArrayR.t (ArrayR.t LayerStore)) (i j : nat)
    (v : LayerStore) : result (ArrayR.t (ArrayR.t LayerStore)) :=
  orow ← ArrayR.getitem g i;
  match orow with
  | None => Raise TypeError
  | Some row =>
      row' ← ArrayR.setitem row j v;
      ArrayR.setitem g i row'
  end.

(** [for j in range(y)] *)
Fixpoint init_row (draw_style : string) (i : nat) (js : list nat)
    (g : ArrayR.t (ArrayR.t LayerStore))
    : result (ArrayR.t (ArrayR.t LayerStore)) :=
  match js with
  | [] => Ok g
  | j :: rest =>
      g' ← set_cell g i j (new_store draw_style);
      init_row draw_style i rest g'
  end.

(** [for i in range(x)] *)
Fixpoint init_rows (draw_style : string) (y : nat) (rows : list nat)
    (g : ArrayR.t (ArrayR.t LayerStore))
    : result (ArrayR.t (ArrayR.t LayerStore)) :=
  match rows with
  | [] => Ok g
  | i :: rest =>
      g1 ← ArrayR.setitem g i (ArrayR.new y);
      g2 ← init_row draw_style i (seq 0 y) g1;
      init_rows draw_style y rest g2
  end.

Definition init (draw_style : string) (x y : nat) : result t :=
  g ← init_rows draw_style y (seq 0 x) (ArrayR.new x);
  Ok (mk draw_style x y DEFAULT_BRUSH_SIZE g).
End WithCatalog.

Definition increase_brush_size (self : t) : t :=
  mk self.(draw_style) self.(x) self.(y)
     (Z.min (self.(brush_size) + 1) MAX_BRUSH) self.(grid).

Definition decrease_brush_size (self : t) : t :=
  mk self.(draw_style) self.(x) self.(y)
     (Z.max (self.(brush_size) - 1) MIN_BRUSH) self.(grid).

(** [grid[index]] *)
Definition getitem (self : t) (index : nat) : result (option (ArrayR.t LayerStore)) :=
  ArrayR.getitem self.(grid) index.

(** The store at row [i], column [j], when both are in range. *)
Definition cell (self : t) (i j : nat) : option LayerStore :=
  row ← mjoin (self.(grid) !! i); mjoin (row !! j).
End Grid.

(** ** The replay tracker ([replay.py]) *)

Module PaintAction.
(** Modelled from the spec: [action.PaintAction] is not part of the sources.
    An action is opaque; it exposes [redo_apply(grid)] and
    [undo_apply(grid)]. Each mutates the grid and, like any call, either
    returns or raises: it yields the grid it leaves behind and the
    exception raised, if any. *)
Definition effect : Type := Grid.t -> Grid.t * option exn.

Record t : Type := mk {
  redo_apply : effect;
  undo_apply : effect
}.
End PaintAction.

Module ReplayTracker.
Record t : Type := mk {
  action_queue : CircularQueue.t (PaintAction.t * bool)
}.

Definition init : t := mk (CircularQueue.new 11000).

Definition start_replay (self : t) : t := self.

Definition add_action (self : t) (action : PaintAction.t) (is_undo : bool)
    : result t :=
  if negb (CircularQueue.is_full self.(action_queue)) then
    q ← CircularQueue.append self.(action_queue) (action, is_undo);
    Ok (mk q)
  else Ok self.

(** The [try] block covers the [serve] and the effect: an exception from
    either one ends in [return True]. *)
Definition play_next_action (self : t) (grid : Grid.t) : bool * t * Grid.t :=
  match CircularQueue.serve self.(action_queue) with
  | Ok ((action, is_undo), q) =>
      let '(grid', raised) :=
        if is_undo then PaintAction.undo_apply action grid
        else PaintAction.redo_apply action grid in
      match raised with
      | None => (false, mk q, grid')
      | Some _ => (true, mk q, grid')
      end
  | _ => (true, self, grid)
  end.

Definition clear (self : t) : t :=
  mk (CircularQueue.clear self.(action_queue)).
End ReplayTracker.

(** ** Vocabulary of the properties *)

(** Calls made on a [SetLayerStore], in order. *)
Inductive set_call : Type :=
  | SetAdd (layer : Layer.t)
  | SetErase (layer : Layer.t)
  | SetSpecial.

Definition set_step (self : SetLayerStore.t) (c : set_call) : SetLayerStore.t :=
  match c with
  | SetAdd l => snd (SetLayerStore.add self l)
  | SetErase l => snd (SetLayerStore.erase self l)
  | SetSpecial => SetLayerStore.special self
  end.

Definition set_run (calls : list set_call) (self : SetLayerStore.t) : SetLayerStore.t :=
  foldl set_step self calls.

Definition is_set_special (c : set_call) : bool :=
  match c with
  | SetSpecial => true
  | _ => false
  end.

(** How many of the calls are [special()]. *)
Definition special_count (calls : list set_call) : nat :=
  length (filter (fun c => is_set_special c = true) calls).

(** Calls changing the brush size of a grid, in order. *)
Inductive brush_call : Type :=
  | Increase
  | Decrease.

Definition brush_step (g : Grid.t) (c : brush_call) : Grid.t :=
  match c with
  | Increase => Grid.increase_brush_size g
  | Decrease => Grid.decrease_brush_size g
  end.

Definition brush_run (calls : list brush_call) (g : Grid.t) : Grid.t :=
  foldl brush_step g calls.


(** The colour obtained by applying the layers in list order, first to last. *)
Definition apply_in_order (ls : list Layer.t) (start : colour)
    (timestamp x y : Z) : colour :=
  foldl (fun c l => Layer.apply l c timestamp x y) start ls.

(** The layers of an [AdditiveLayerStore], oldest first. *)
Definition additive_content (self : AdditiveLayerStore.t) : list Layer.t :=
  CircularQueue.items self.(AdditiveLayerStore.layers).

(** The queue of an [AdditiveLayerStore] holds no more than its capacity. *)
Definition additive_wf (self : AdditiveLayerStore.t) : Prop :=
  CircularQueue.len self.(AdditiveLayerStore.layers)
  <= CircularQueue.capacity self.(AdditiveLayerStore.layers).

(** An [AdditiveLayerStore] with the same capacity and the given content. *)
Definition additive_with (self : AdditiveLayerStore.t) (ls : list Layer.t)
    : AdditiveLayerStore.t :=
  AdditiveLayerStore.mk
    (CircularQueue.mk (CircularQueue.capacity self.(AdditiveLayerStore.layers)) ls).

(** The states an [AdditiveLayerStore] goes through: the one built by the
    constructor, and those left by a call that returns. *)
Inductive additive_reachable (get_layers : list Layer.t)
    : AdditiveLayerStore.t -> Prop :=
  | reach_init :
      additive_reachable get_layers (AdditiveLayerStore.init get_layers)
  | reach_add self layer flag self' :
      additive_reachable get_layers self ->
      AdditiveLayerStore.add self layer = Ok (flag, self') ->
      additive_reachable get_layers self'
  | reach_erase self layer :
      additive_reachable get_layers self ->
      additive_reachable get_layers (snd (AdditiveLayerStore.erase self layer))
  | reach_get_color self start timestamp x y c self' :
      additive_reachable get_layers self ->
      AdditiveLayerStore.get_color self start timestamp x y = Ok (c, self') ->
      additive_reachable get_layers self'
  | reach_special self fuel self' :
      additive_reachable get_layers self ->
      AdditiveLayerStore.special fuel self = Ok self' ->
      additive_reachable get_layers self'.

(** The effect a recorded entry has when played: undo for an undo entry, redo
    otherwise. *)
Definition entry_effect (e : PaintAction.t * bool) : PaintAction.effect :=
  fun g =>
    if snd e then PaintAction.undo_apply (fst e) g
    else PaintAction.redo_apply (fst e) g.

(** The grid left by the effects of the entries run in list order, when every
    one of them returns without raising. *)
Fixpoint effects_in_order (entries : list (PaintAction.t * bool)) (g : Grid.t)
    : option Grid.t :=
  match entries with
  | [] => Some g
  | e :: rest =>
      match entry_effect e g with
      | (g', None) => effects_in_order rest g'
      | (_, Some _) => None
      end
  end.

(** [add_action] called for each entry in list order. *)
Fixpoint record_all (entries : list (PaintAction.t * bool))
    (self : ReplayTracker.t) : result ReplayTracker.t :=
  match entries with
  | [] => Ok self
  | (action, is_undo) :: rest =>
      self' ← ReplayTracker.add_action self action is_undo;
      record_all rest self'
  end.

(** [play_next_action] called [n] times in a row, with the flags returned. *)
Fixpoint play_times (n : nat) (self : ReplayTracker.t) (g : Grid.t)
    : list bool * ReplayTracker.t * Grid.t :=
  match n with
  | O => ([], self, g)
  | S n' =>
      let '(flag, self', g') := ReplayTracker.play_next_action self g in
      let '(flags, self'', g'') := play_times n' self' g' in
      (flag :: flags, self'', g'')
  end.

(** A tracker whose log holds the given entries, oldest first. *)
Definition tracker_with (entries : list (PaintAction.t * bool)) : ReplayTracker.t :=
  ReplayTracker.mk (CircularQueue.mk 11000 entries).

(** Layer index [i] is present in a [SequenceLayerStore]: the set holds
    [i + 1]. *)
Definition present (self : SequenceLayerStore.t) (i : N) : bool :=
  BSet.contains self.(SequenceLayerStore.layers) (i + 1).

(** Ascending order of names, as Python compares strings. *)
Definition name_le (a b : string) : Prop := String.leb a b = true.

(** The (index, name) pairs of the catalog entries whose index is present, in
    catalog order. *)
Definition present_pairs (get_layers : list Layer.t)
    (self : SequenceLayerStore.t) : list (N * string) :=
  omap (fun i : nat =>
          if present self (N.of_nat i)
          then (fun l => (N.of_nat i, Layer.name l)) <$> get_layers !! i
          else None)
       (seq 0 (length get_layers)).

(** A list of (index, name) pairs is sorted ascending by name. *)
Definition sorted_by_name (l : list (N * string)) : Prop :=
  Sorted (fun p q => name_le (snd p) (snd q)) l.

(** The items [special] of a [SequenceLayerStore] collects while visiting the
    given set items: one per item held, with the name found in the catalog. *)
Definition present_items (get_layers : list Layer.t)
    (self : SequenceLayerStore.t) (indices : list nat) : list ListItem.t :=
  omap (fun index : nat =>
          if BSet.contains self.(SequenceLayerStore.layers) (N.of_nat index)
          then (fun l => ListItem.mk (N.of_nat index) (Layer.name l))
                 <$> get_layers !! (index - 1)
          else None)
       indices.

(** Ascending order of the keys of two items. *)
Definition item_le (a b : ListItem.t) : Prop :=
  name_le (ListItem.key a) (ListItem.key b).

(** The (layer index, name) pair of an item: the set holds index + 1. *)
Definition item_pair (it : ListItem.t) : N * string :=
  ((ListItem.value it - 1)%N, ListItem.key it).

(** ** Sample data for the examples *)

Definition clamp (v : Z) : Z := Z.max 0 (Z.min 255 v).

Definition black : Layer.t :=
  Layer.mk 0 "black" (fun _ _ _ _ => (0, 0, 0)%Z).

Definition lighten : Layer.t :=
  Layer.mk 1 "lighten"
    (fun '(r, g, b) _ _ _ => (clamp (r + 40), clamp (g + 40), clamp (b + 40))%Z).

Definition invert : Layer.t :=
  Layer.mk 2 "invert" (fun '(r, g, b) _ _ _ => (255 - r, 255 - g, 255 - b)%Z).

Definition darken : Layer.t :=
  Layer.mk 3 "darken"
    (fun '(r, g, b) _ _ _ => (clamp (r - 40), clamp (g - 40), clamp (b - 40))%Z).

Definition sample_catalog : list Layer.t := [black; lighten; invert; darken].

(** A layer with a given index and name that leaves the colour alone. *)
Definition named (index : N) (name : string) : Layer.t :=
  Layer.mk index name (fun c _ _ _ => c).

(** A [SequenceLayerStore] holding exactly the given layer indices. *)
Definition sequence_of (indices : list N) : SequenceLayerStore.t :=
  foldl (fun s i => snd (SequenceLayerStore.add s (named i EmptyString))) SequenceLayerStore.init
    indices.

(** An [AdditiveLayerStore] of capacity [cap] holding the given layers. *)
Definition additive_of (cap : nat) (ls : list Layer.t) : AdditiveLayerStore.t :=
  AdditiveLayerStore.mk (CircularQueue.mk cap ls).

(** [add] on whichever store a square holds. *)
Definition store_add (l : Layer.t) (s : LayerStore) : result LayerStore :=
  match s with
  | SetStore s => Ok (SetStore (snd (SetLayerStore.add s l)))
  | AdditiveStore s =>
      '(_, s') ← AdditiveLayerStore.add s l; Ok (AdditiveStore s')
  | SequenceStore s => Ok (SequenceStore (snd (SequenceLayerStore.add s l)))
  end.

(** [erase] on whichever store a square holds. *)
Definition store_erase (l : Layer.t) (s : LayerStore) : result LayerStore :=
  match s with
  | SetStore s => Ok (SetStore (snd (SetLayerStore.erase s l)))
  | AdditiveStore s => Ok (AdditiveStore (snd (AdditiveLayerStore.erase s l)))
  | SequenceStore s => Ok (SequenceStore (snd (SequenceLayerStore.erase s l)))
  end.

(** [grid[i][j]] updated by [f]; an exception leaves the grid as it was. *)
Definition on_square (f : LayerStore -> result LayerStore) (i j : nat)
    : PaintAction.effect :=
  fun g =>
    let updated :=
      orow ← Grid.getitem g i;
      match orow with
      | None => Raise TypeError
      | Some row =>
          ocell ← ArrayR.getitem row j;
          match ocell with
          | None => Raise TypeError
          | Some c => c' ← f c; Grid.set_cell g.(Grid.grid) i j c'
          end
      end in
    match updated with
    | Ok squares =>
        (Grid.mk g.(Grid.draw_style) g.(Grid.x) g.(Grid.y) g.(Grid.brush_size)
           squares, None)
    | Raise e => (g, Some e)
    | OutOfFuel => (g, Some (Exception "out of fuel"))
    end.

(** A sample paint action of one step on square [(i, j)]: redoing it adds the
    layer to the square, undoing it erases. *)
Definition paint (i j : nat) (l : Layer.t) : PaintAction.t :=
  PaintAction.mk (on_square (store_add l) i j) (on_square (store_erase l) i j).

(** A 2 x 2 grid of empty set stores. *)
Definition sample_grid : Grid.t :=
  Grid.mk "SET" 2 2 2
    (replicate 2 (Some (replicate 2 (Some (SetStore SetLayerStore.init))))).

(** ** The rest of [grid.py]: [Grid.special] *)

(** [store.special()] on whichever store a square holds; the loops of the
    additive store get [fuel] iterations each. *)
Definition LayerStore_special (fuel : nat) (get_layers : list Layer.t)
    (s : LayerStore) : result LayerStore :=
  match s with
  | SetStore s => Ok (SetStore (SetLayerStore.special s))
  | AdditiveStore s =>
      s' ← AdditiveLayerStore.special fuel s; Ok (AdditiveStore s')
  | SequenceStore s =>
      s' ← SequenceLayerStore.special get_layers s; Ok (SequenceStore s')
  end.

(** [self.grid[i][j].special()]: the store found at row [i], column [j] is
    changed in place, so the grid holds the changed store afterwards. *)
Definition Grid_special_square (fuel : nat) (get_layers : list Layer.t)
    (g : ArrayR.t (ArrayR.t LayerStore)) (i j : nat)
    : result (ArrayR.t (ArrayR.t LayerStore)) :=
  orow ← ArrayR.getitem g i;
  match orow with
  | None => Raise TypeError
  | Some row =>
      ocell ← ArrayR.getitem row j;
      match ocell with
      | None => Raise (Exception "NoneType object has no attribute special")
      | Some c =>
          c' ← LayerStore_special fuel get_layers c;
          Ok (<[i := Some (<[j := Some c']> row)]> g)
      end
  end.

(** [for j in range(self.y)] *)
Fixpoint Grid_special_row (fuel : nat) (get_layers : list Layer.t) (i : nat)
    (js : list nat) (g : ArrayR.t (ArrayR.t LayerStore))
    : result (ArrayR.t (ArrayR.t LayerStore)) :=
  match js with
  | [] => Ok g
  | j :: rest =>
      g' ← Grid_special_square fuel get_layers g i j;
      Grid_special_row fuel get_layers i rest g'
  end.

(** [for i in range(self.x)] *)
Fixpoint Grid_special_rows (fuel : nat) (get_layers : list Layer.t) (y : nat)
    (rows : list nat) (g : ArrayR.t (ArrayR.t LayerStore))
    : result (ArrayR.t (ArrayR.t LayerStore)) :=
  match rows with
  | [] => Ok g
  | i :: rest =>
      g' ← Grid_special_row fuel get_layers i (seq 0 y) g;
      Grid_special_rows fuel get_layers y rest g'
  end.

(** [Grid.special] *)
Definition Grid_special (fuel : nat) (get_layers : list Layer.t) (self : Grid.t)
    : result Grid.t :=
  g ← Grid_special_rows fuel get_layers self.(Grid.y) (seq 0 self.(Grid.x))
        self.(Grid.grid);
  Ok (Grid.mk self.(Grid.draw_style) self.(Grid.x) self.(Grid.y)
        self.(Grid.brush_size) g).

(** ** Vocabulary of the further properties *)

(** The backing array of a grid whose squares are the stores of [m], row by
    row. *)
Definition squares_of (m : list (list LayerStore))
    : ArrayR.t (ArrayR.t LayerStore) :=
  (fun row : list LayerStore => Some (Some <$> row)) <$> m.

(** The catalog layers whose index is present in a [SequenceLayerStore], in
    catalog order. *)
Definition present_layers (get_layers : list Layer.t)
    (self : SequenceLayerStore.t) : list Layer.t :=
  omap (fun i : nat =>
          if present self (N.of_nat i) then get_layers !! i else None)
       (seq 0 (length get_layers)).

(** The colour obtained by applying the layers in list order, last to first. *)
Definition apply_newest_first (ls : list Layer.t) (start : colour)
    (timestamp x y : Z) : colour :=
  foldr (fun l c => Layer.apply l c timestamp x y) start ls.

(** The set store with its special mode switched. *)
Definition toggled (s : LayerStore) : LayerStore :=
  match s with
  | SetStore s => SetStore (SetLayerStore.special s)
  | other => other
  end.

Definition is_set_store (s : LayerStore) : Prop :=
  match s with
  | SetStore _ => True
  | _ => False
  end.

(** [special()] called [n] times in a row on a [SequenceLayerStore]. *)
Fixpoint special_times (get_layers : list Layer.t) (n : nat)
    (self : SequenceLayerStore.t) : result SequenceLayerStore.t :=
  match n with
  | O => Ok self
  | S n' =>
      self' ← SequenceLayerStore.special get_layers self;
      special_times get_layers n' self'
  end.

(** [f] on the store of a square, of every square of a row, and of every
    square of a row slot of the backing array. *)
Definition square_map (f : LayerStore -> LayerStore)
    : option LayerStore -> option LayerStore :=
  fmap f.

Definition row_map (f : LayerStore -> LayerStore)
    : list (option LayerStore) -> list (option LayerStore) :=
  fmap (square_map f).

Definition slot_map (f : LayerStore -> LayerStore)
    : option (list (option LayerStore)) -> option (list (option LayerStore)) :=
  fmap (row_map f).

(** [f] on every store of a matrix of stores. *)
Definition stores_map (f : LayerStore -> LayerStore)
    (m : list (list LayerStore)) : list (list LayerStore) :=
  (fun row : list LayerStore => f <$> row) <$> m.
(** ** Properties of [SetLayerStore] *)

Section SetLayerStoreProperties.
Variable invert : Layer.t.

(** C6: calling [special()] twice on a [SetLayerStore] brings [get_color]
    back to the value it had before the first call, for every start colour,
    timestamp and position. *)
Theorem set_special_twice_get_color (self : SetLayerStore.t)
    (start : colour) (timestamp x y : Z) :
  SetLayerStore.get_color invert
    (SetLayerStore.special (SetLayerStore.special self)) start timestamp x y
  = SetLayerStore.get_color invert self start timestamp x y.
Proof.
  destruct self as [held flag].
  unfold SetLayerStore.special, SetLayerStore.get_color; simpl.
  by rewrite negb_involutive.
Qed.

Lemma set_run_snoc (calls : list set_call) (c : set_call) (self : SetLayerStore.t) :
  set_run (calls ++ [c]) self = set_step (set_run calls self) c.
Proof. unfold set_run. by rewrite foldl_app. Qed.

Lemma special_count_snoc (calls : list set_call) (c : set_call) :
  special_count (calls ++ [c])
  = special_count calls + (if is_set_special c then 1 else 0).
Proof.
  unfold special_count. rewrite filter_app, length_app. f_equal.
  destruct c; reflexivity.
Qed.

Lemma set_run_on_special (calls : list set_call) :
  SetLayerStore.on_special (set_run calls SetLayerStore.init)
  = Nat.odd (special_count calls).
Proof.
  induction calls as [|c calls IH] using rev_ind; [reflexivity|].
  rewrite set_run_snoc, special_count_snoc.
  destruct c as [l|l|]; simpl.
  - rewrite Nat.add_0_r. exact IH.
  - rewrite Nat.add_0_r, <- IH. unfold SetLayerStore.erase.
    by destruct (SetLayerStore.layer _).
  - rewrite IH, Nat.add_1_r, Nat.odd_succ. by rewrite Nat.negb_odd.
Qed.

(** C10: neither [add] nor [erase] of a [SetLayerStore] changes the
    [on_special] flag, only [special()] flips it; so after any calls starting
    from a fresh store, once [erase] has cleared the layer, [get_color]
    inverts the start colour exactly when [special()] was called an odd
    number of times. *)
Theorem set_add_erase_keep_on_special (self : SetLayerStore.t) (layer : Layer.t) :
  SetLayerStore.on_special (snd (SetLayerStore.add self layer))
    = SetLayerStore.on_special self
  /\ SetLayerStore.on_special (snd (SetLayerStore.erase self layer))
    = SetLayerStore.on_special self
  /\ SetLayerStore.on_special (SetLayerStore.special self)
    = negb (SetLayerStore.on_special self)
  /\ SetLayerStore.layer (snd (SetLayerStore.erase self layer)) = None
  /\ forall (calls : list set_call) (start : colour) (timestamp x y : Z),
      SetLayerStore.get_color invert
        (snd (SetLayerStore.erase (set_run calls SetLayerStore.init) layer))
        start timestamp x y
      = if Nat.odd (special_count calls)
        then Layer.apply invert start timestamp x y
        else start.
Proof.
  split_and!.
  - reflexivity.
  - unfold SetLayerStore.erase. by destruct (SetLayerStore.layer self).
  - reflexivity.
  - unfold SetLayerStore.erase. by destruct (SetLayerStore.layer self) eqn:E.
  - intros calls start timestamp x y.
    rewrite <- set_run_on_special.
    generalize (set_run calls SetLayerStore.init); intros s.
    unfold SetLayerStore.erase, SetLayerStore.get_color.
    destruct s as [[held|] flag]; simpl; reflexivity.
Qed.
End SetLayerStoreProperties.

(** ** Properties of [Grid] *)

Section GridProperties.
Variable get_layers : list Layer.t.

Lemma init_brush_size (draw_style : string) (x y : nat) (g : Grid.t) :
  Grid.init get_layers draw_style x y = Ok g ->
  Grid.brush_size g = Grid.DEFAULT_BRUSH_SIZE /\ Grid.draw_style g = draw_style.
Proof.
  unfold Grid.init. destruct (Grid.init_rows _ _ _ _ _); simpl; [|done..].
  intros [= <-]. done.
Qed.

Lemma brush_step_bounds (g : Grid.t) (c : brush_call) :
  (0 <= Grid.brush_size g <= 5)%Z ->
  (0 <= Grid.brush_size (brush_step g c) <= 5)%Z.
Proof.
  destruct c; simpl; unfold Grid.MAX_BRUSH, Grid.MIN_BRUSH; lia.
Qed.

Lemma brush_run_bounds (calls : list brush_call) (g : Grid.t) :
  (0 <= Grid.brush_size g <= 5)%Z ->
  (0 <= Grid.brush_size (brush_run calls g) <= 5)%Z.
Proof.
  revert g. induction calls as [|c calls IH]; intros g Hg; [exact Hg|].
  simpl. apply IH, brush_step_bounds, Hg.
Qed.

(** C8: the brush size of a new grid is 2 and stays within [0, 5] under
    every sequence of [increase_brush_size] and [decrease_brush_size];
    increase adds 1 unless the size is 5, decrease subtracts 1 unless the
    size is 0; five increases from the default give 5 and five decreases
    from 5 give 0. *)
Theorem brush_size_clamped (draw_style : string) (x y : nat) (g : Grid.t) :
  Grid.init get_layers draw_style x y = Ok g ->
  Grid.brush_size g = 2%Z
  /\ (forall calls : list brush_call,
        let g' := brush_run calls g in
        (0 <= Grid.brush_size g' <= 5)%Z
        /\ Grid.brush_size (Grid.increase_brush_size g')
           = (if decide (Grid.brush_size g' < 5)%Z
              then Grid.brush_size g' + 1 else 5)%Z
        /\ Grid.brush_size (Grid.decrease_brush_size g')
           = (if decide (0 < Grid.brush_size g')%Z
              then Grid.brush_size g' - 1 else 0)%Z)
  /\ Grid.brush_size (brush_run (replicate 5 Increase) g) = 5%Z
  /\ (forall g5 : Grid.t, Grid.brush_size g5 = 5%Z ->
        Grid.brush_size (brush_run (replicate 5 Decrease) g5) = 0%Z).
Proof.
  intros Hinit. apply init_brush_size in Hinit as [Hb _].
  unfold Grid.DEFAULT_BRUSH_SIZE in Hb.
  split_and!.
  - exact Hb.
  - intros calls g'.
    assert (0 <= Grid.brush_size g' <= 5)%Z as Hg'
      by (apply brush_run_bounds; lia).
    split; [exact Hg'|].
    split; simpl; unfold Grid.MAX_BRUSH, Grid.MIN_BRUSH; case_decide; lia.
  - simpl. rewrite Hb. reflexivity.
  - intros g5 H5. simpl. rewrite H5. reflexivity.
Qed.
Lemma foldl_insert_seq {A : Type} (v : A) (n k : nat) (l : list A) :
  k + n <= length l ->
  foldl (fun r j => <[j := v]> r) l (seq k n)
  = take k l ++ replicate n v ++ drop (k + n) l.
Proof.
  revert k l. induction n as [|n IH]; intros k l Hlen; simpl.
  - by rewrite Nat.add_0_r, take_drop.
  - rewrite IH by (rewrite length_insert; lia).
    rewrite drop_insert_lt by lia.
    rewrite (take_S_r _ k v) by (apply list_lookup_insert_eq; lia).
    rewrite take_insert_ge by lia.
    rewrite <- (assoc_L (++)). simpl.
    by rewrite Nat.add_succ_r.
Qed.

Lemma foldl_insert_all {A : Type} (v w : A) (n : nat) :
  foldl (fun r j => <[j := v]> r) (replicate n w) (seq 0 n) = replicate n v.
Proof.
  rewrite foldl_insert_seq by (rewrite length_replicate; lia). simpl.
  rewrite drop_ge by (rewrite length_replicate; lia).
  by rewrite app_nil_r.
Qed.

Lemma set_cell_ok (g : ArrayR.t (ArrayR.t LayerStore)) (i j : nat)
    (v : LayerStore) (row : ArrayR.t LayerStore) :
  g !! i = Some (Some row) -> j < length row ->
  Grid.set_cell g i j v = Ok (<[i := Some (<[j := Some v]> row)]> g).
Proof.
  intros Hrow Hj. unfold Grid.set_cell, ArrayR.getitem, ArrayR.setitem.
  rewrite Hrow. simpl. rewrite decide_True by done. simpl.
  rewrite decide_True by (by eapply lookup_lt_Some). done.
Qed.

Lemma init_row_ok (draw_style : string) (i : nat) (js : list nat) :
  forall (g : ArrayR.t (ArrayR.t LayerStore)) (row : ArrayR.t LayerStore),
  g !! i = Some (Some row) -> Forall (fun j => j < length row) js ->
  Grid.init_row get_layers draw_style i js g
  = Ok (<[i := Some (foldl (fun r j =>
               <[j := Some (Grid.new_store get_layers draw_style)]> r) row js)]> g).
Proof.
  induction js as [|j js IH]; intros g row Hrow Hjs; simpl.
  - f_equal. symmetry. by apply list_insert_id.
  - apply Forall_cons in Hjs as [Hj Hjs].
    rewrite (set_cell_ok _ _ _ _ row) by done. simpl.
    erewrite IH.
    + by rewrite list_insert_insert_eq.
    + apply list_lookup_insert_eq. by eapply lookup_lt_Some.
    + by rewrite length_insert.
Qed.

Lemma init_rows_ok (draw_style : string) (y : nat) (rows : list nat) :
  forall g : ArrayR.t (ArrayR.t LayerStore),
  Forall (fun i => i < length g) rows ->
  Grid.init_rows get_layers draw_style y rows g
  = Ok (foldl (fun r i =>
          <[i := Some (replicate y (Some (Grid.new_store get_layers draw_style)))]> r)
          g rows).
Proof.
  induction rows as [|i rows IH]; intros g Hrows; simpl; [done|].
  apply Forall_cons in Hrows as [Hi Hrows].
  unfold ArrayR.setitem at 1. rewrite decide_True by done. simpl.
  rewrite (init_row_ok _ _ _ _ (ArrayR.new y)).
  - simpl. unfold ArrayR.new.
    rewrite foldl_insert_all, list_insert_insert_eq.
    apply IH. by rewrite length_insert.
  - by apply list_lookup_insert_eq.
  - unfold ArrayR.new. rewrite length_replicate.
    apply Forall_forall. intros j Hj%elem_of_seq. lia.
Qed.

Lemma init_ok (draw_style : string) (x y : nat) :
  Grid.init get_layers draw_style x y
  = Ok (Grid.mk draw_style x y Grid.DEFAULT_BRUSH_SIZE
          (replicate x
             (Some (replicate y (Some (Grid.new_store get_layers draw_style)))))).
Proof.
  unfold Grid.init. rewrite init_rows_ok.
  - simpl. do 2 f_equal. unfold ArrayR.new.
    by rewrite foldl_insert_all.
  - unfold ArrayR.new. rewrite length_replicate.
    apply Forall_forall. intros j Hj%elem_of_seq. lia.
Qed.

Lemma new_store_fallthrough (draw_style : string) :
  draw_style <> Grid.DRAW_STYLE_SET -> draw_style <> Grid.DRAW_STYLE_ADD ->
  Grid.new_store get_layers draw_style = SequenceStore SequenceLayerStore.init.
Proof.
  intros Hset Hadd. unfold Grid.new_store.
  apply String.eqb_neq in Hset, Hadd. by rewrite Hset, Hadd.
Qed.

(** C9: for every draw style other than "SET" and "ADD", whether or not it
    is one of [DRAW_STYLE_OPTIONS], constructing a grid raises nothing,
    keeps the style as given and puts a fresh [SequenceLayerStore] in every
    square. *)
Theorem init_invalid_style_is_sequence (draw_style : string) (x y : nat) :
  draw_style <> Grid.DRAW_STYLE_SET -> draw_style <> Grid.DRAW_STYLE_ADD ->
  exists g : Grid.t,
    Grid.init get_layers draw_style x y = Ok g
    /\ Grid.draw_style g = draw_style
    /\ Grid.grid g
       = replicate x (Some (replicate y (Some (SequenceStore SequenceLayerStore.init))))
    /\ forall i j : nat, i < x -> j < y ->
         Grid.cell g i j = Some (SequenceStore SequenceLayerStore.init).
Proof.
  intros Hset Hadd. eexists. split; [apply init_ok|].
  rewrite new_store_fallthrough by done. simpl.
  split_and!; [done..|].
  intros i j Hi Hj. unfold Grid.cell. simpl.
  rewrite lookup_replicate_2 by done. simpl.
  by rewrite lookup_replicate_2.
Qed.
End GridProperties.

(** A style outside [DRAW_STYLE_OPTIONS] builds a 2 x 3 grid of sequence
    stores. *)
Lemma init_invalid_style_is_sequence_witness :
  ("CIRCLE"%string <> Grid.DRAW_STYLE_SET /\ "CIRCLE"%string <> Grid.DRAW_STYLE_ADD)
  /\ exists g : Grid.t,
      Grid.init [] "CIRCLE" 2 3 = Ok g
      /\ Grid.draw_style g = "CIRCLE"%string
      /\ Grid.grid g
         = replicate 2 (Some (replicate 3 (Some (SequenceStore SequenceLayerStore.init))))
      /\ forall i j : nat, i < 2 -> j < 3 ->
           Grid.cell g i j = Some (SequenceStore SequenceLayerStore.init).
Proof.
  split; [split; discriminate|].
  apply (init_invalid_style_is_sequence [] "CIRCLE" 2 3); discriminate.
Defined.

(** A 2 x 2 "SET" grid starts with brush size 2. *)
Lemma brush_size_clamped_witness :
  exists g : Grid.t,
    Grid.init [] "SET" 2 2 = Ok g
    /\ Grid.brush_size g = 2%Z
    /\ Grid.brush_size (brush_run (replicate 5 Increase) g) = 5%Z.
Proof.
  eexists. split; [reflexivity|].
  pose proof (brush_size_clamped [] "SET" 2 2 _ eq_refl) as (H2 & _ & H5 & _).
  split; [exact H2|exact H5].
Defined.

(** ** Properties of [AdditiveLayerStore] *)

Section QueueLemmas.
Context {A : Type}.

Lemma queue_append_ok (cap : nat) (l : list A) (item : A) :
  length l < cap ->
  CircularQueue.append (CircularQueue.mk cap l) item
  = Ok (CircularQueue.mk cap (l ++ [item])).
Proof.
  intros Hlt. unfold CircularQueue.append, CircularQueue.is_full,
    CircularQueue.len. simpl.
  destruct (Nat.eqb_spec (length l) cap); [lia|done].
Qed.

Lemma queue_append_full (cap : nat) (l : list A) (item : A) :
  length l = cap ->
  CircularQueue.append (CircularQueue.mk cap l) item
  = Raise (Exception "Queue is full").
Proof.
  intros Heq. unfold CircularQueue.append, CircularQueue.is_full,
    CircularQueue.len. simpl.
  destruct (Nat.eqb_spec (length l) cap); [done|lia].
Qed.

Lemma stack_push_ok (cap : nat) (l : list A) (item : A) :
  length l < cap ->
  ArrayStack.push (ArrayStack.mk cap l) item
  = Ok (ArrayStack.mk cap (item :: l)).
Proof.
  intros Hlt. unfold ArrayStack.push, ArrayStack.is_full, ArrayStack.len.
  simpl. destruct (Nat.eqb_spec (length l) cap); [lia|done].
Qed.
End QueueLemmas.

Section AdditiveLayerStoreProperties.

Lemma get_color_loop_rotates (timestamp x y : Z) (cap : nat)
    (front : list Layer.t) :
  forall (back : list Layer.t) (c : colour),
  length front + length back <= cap ->
  AdditiveLayerStore.get_color_loop (length front)
    (CircularQueue.mk cap (front ++ back)) c timestamp x y
  = Ok (apply_in_order front c timestamp x y,
        CircularQueue.mk cap (back ++ front)).
Proof.
  induction front as [|l front IH]; intros back c Hcap; simpl.
  - by rewrite app_nil_r.
  - simpl in Hcap. unfold CircularQueue.serve. simpl.
    rewrite queue_append_ok by (rewrite length_app; lia). simpl.
    rewrite <- (assoc_L (++)).
    rewrite IH by (rewrite length_app; simpl; lia).
    by rewrite <- (assoc_L (++)).
Qed.

Lemma get_color_keeps_store (self : AdditiveLayerStore.t)
    (start : colour) (timestamp x y : Z) :
  additive_wf self ->
  AdditiveLayerStore.get_color self start timestamp x y
  = Ok (apply_in_order (additive_content self) start timestamp x y, self).
Proof.
  destruct self as [[cap ls]]. unfold additive_wf, additive_content,
    AdditiveLayerStore.get_color, CircularQueue.len. simpl. intros Hwf.
  pose proof (get_color_loop_rotates timestamp x y cap ls [] start) as H.
  rewrite app_nil_r in H. rewrite H by (simpl; lia). done.
Qed.

(** C2: [get_color] of an [AdditiveLayerStore] returns the start colour
    folded through the [apply] of every stored layer, oldest first, and
    leaves the store with the same layers in the same order. *)
Theorem additive_get_color_fold (self : AdditiveLayerStore.t)
    (start : colour) (timestamp x y : Z) :
  additive_wf self ->
  AdditiveLayerStore.get_color self start timestamp x y
  = Ok (foldl (fun c l => Layer.apply l c timestamp x y) start
          (CircularQueue.items self.(AdditiveLayerStore.layers)),
        self).
Proof. apply get_color_keeps_store. Qed.

Lemma drain_loop (cap scap : nat) (q : list Layer.t) :
  forall (fuel : nat) (st : list Layer.t),
  length q < fuel -> length q + length st <= scap ->
  while fuel AdditiveLayerStore.drain_cond AdditiveLayerStore.drain_body
    (CircularQueue.mk cap q, ArrayStack.mk scap st)
  = Ok (CircularQueue.mk cap [], ArrayStack.mk scap (reverse q ++ st)).
Proof.
  induction q as [|l q IH]; intros fuel st Hfuel Hroom;
    (destruct fuel as [|fuel]; [simpl in Hfuel; lia|]); simpl.
  - reflexivity.
  - simpl in Hfuel, Hroom. unfold AdditiveLayerStore.drain_body. simpl.
    rewrite stack_push_ok by lia. simpl.
    rewrite IH by (simpl; lia).
    by rewrite reverse_cons, <- (assoc_L (++)).
Qed.

Lemma drain_loop_short (cap scap : nat) (fuel : nat) :
  forall (q st : list Layer.t),
  fuel <= length q ->
  forall s,
  while fuel AdditiveLayerStore.drain_cond AdditiveLayerStore.drain_body
    (CircularQueue.mk cap q, ArrayStack.mk scap st) <> Ok s.
Proof.
  induction fuel as [|fuel IH]; intros q st Hfuel s; simpl; [done|].
  destruct q as [|l q]; simpl in Hfuel; [lia|].
  unfold AdditiveLayerStore.drain_cond, AdditiveLayerStore.drain_body. simpl.
  destruct (ArrayStack.push _ _) as [[scap' st']| |] eqn:Hpush; simpl; [|done..].
  unfold ArrayStack.push in Hpush. simpl in Hpush.
  destruct (ArrayStack.is_full _); [done|]. injection Hpush as <- <-.
  apply IH. lia.
Qed.

Lemma refill_loop (cap scap : nat) (st : list Layer.t) :
  forall (fuel : nat) (q : list Layer.t),
  length st < fuel -> length st + length q <= cap ->
  while fuel AdditiveLayerStore.refill_cond AdditiveLayerStore.refill_body
    (CircularQueue.mk cap q, ArrayStack.mk scap st)
  = Ok (CircularQueue.mk cap (q ++ st), ArrayStack.mk scap []).
Proof.
  induction st as [|l st IH]; intros fuel q Hfuel Hroom;
    (destruct fuel as [|fuel]; [simpl in Hfuel; lia|]); simpl.
  - by rewrite app_nil_r.
  - simpl in Hfuel, Hroom. unfold AdditiveLayerStore.refill_body. simpl.
    rewrite queue_append_ok by lia. simpl.
    rewrite IH by (rewrite ?length_app; simpl; lia).
    by rewrite <- (assoc_L (++)).
Qed.

Lemma special_reverses (fuel : nat) (self : AdditiveLayerStore.t) :
  additive_wf self -> length (additive_content self) < fuel ->
  AdditiveLayerStore.special fuel self
  = Ok (additive_with self (reverse (additive_content self))).
Proof.
  destruct self as [[cap ls]]. unfold additive_wf, additive_content,
    additive_with, AdditiveLayerStore.special, CircularQueue.len,
    ArrayStack.new. simpl. intros Hwf Hfuel.
  rewrite drain_loop by (simpl; lia). simpl.
  rewrite app_nil_r.
  rewrite refill_loop by (rewrite ?length_reverse; simpl; lia). done.
Qed.

Lemma special_returns_reversed (fuel : nat) (self self' : AdditiveLayerStore.t) :
  additive_wf self -> AdditiveLayerStore.special fuel self = Ok self' ->
  self' = additive_with self (reverse (additive_content self)).
Proof.
  intros Hwf Hsp.
  destruct (decide (length (additive_content self) < fuel)) as [Hlt|Hge].
  - rewrite special_reverses in Hsp by done. by injection Hsp.
  - exfalso. destruct self as [[cap ls]].
    unfold AdditiveLayerStore.special, additive_content in *. simpl in *.
    unfold ArrayStack.new in Hsp.
    destruct (while fuel AdditiveLayerStore.drain_cond _ _) as [s1| |] eqn:Hd;
      [|done..].
    by apply drain_loop_short in Hd; [|lia].
Qed.

(** C3: one [special()] on an [AdditiveLayerStore] turns the stored order
    around, oldest becoming newest, keeping every layer exactly once; so a
    second [special()] gives back the store as it was. *)
Theorem additive_special_reverses (fuel : nat) (self : AdditiveLayerStore.t) :
  additive_wf self -> length (additive_content self) < fuel ->
  exists self' : AdditiveLayerStore.t,
    AdditiveLayerStore.special fuel self = Ok self'
    /\ additive_content self' = reverse (additive_content self)
    /\ additive_content self' ≡ₚ additive_content self
    /\ head (additive_content self') = last (additive_content self)
    /\ last (additive_content self') = head (additive_content self)
    /\ AdditiveLayerStore.special fuel self' = Ok self.
Proof.
  intros Hwf Hfuel. eexists. split; [by apply special_reverses|].
  destruct self as [[cap ls]]. unfold additive_content, additive_with in *.
  simpl in *. split_and!.
  - reflexivity.
  - apply reverse_Permutation.
  - apply head_reverse.
  - apply last_reverse.
  - rewrite special_reverses.
    + unfold additive_content, additive_with. simpl.
      by rewrite reverse_involutive.
    + unfold additive_wf, CircularQueue.len in *. simpl in *.
      by rewrite length_reverse.
    + unfold additive_content. simpl. by rewrite length_reverse.
Qed.

Section Capacity.
Variable get_layers : list Layer.t.

Lemma add_under_capacity (self : AdditiveLayerStore.t) (layer : Layer.t) :
  AdditiveLayerStore.add self layer
  = Ok (if decide (CircularQueue.len self.(AdditiveLayerStore.layers)
                   = CircularQueue.capacity self.(AdditiveLayerStore.layers))
        then (false, self)
        else (true, additive_with self (additive_content self ++ [layer]))).
Proof.
  destruct self as [[cap ls]]. unfold AdditiveLayerStore.add,
    CircularQueue.append, CircularQueue.is_full, CircularQueue.len,
    additive_with, additive_content. simpl.
  destruct (Nat.eqb_spec (length ls) cap); case_decide; done.
Qed.

Lemma reachable_capacity (self : AdditiveLayerStore.t) :
  additive_reachable get_layers self ->
  CircularQueue.capacity self.(AdditiveLayerStore.layers)
    = length get_layers * 100
  /\ additive_wf self.
Proof.
  induction 1 as [|s l b s' _ [IHc IHw] Hadd|s l _ [IHc IHw]
                  |s st ts x y c s' _ [IHc IHw] Hget
                  |s fuel s' _ [IHc IHw] Hsp].
  - unfold additive_wf, CircularQueue.len. simpl. lia.
  - rewrite add_under_capacity in Hadd. injection Hadd as Hadd.
    destruct s as [[cap ls]]. unfold additive_wf, CircularQueue.len,
      additive_with, additive_content in *. simpl in *.
    case_decide; simplify_eq; simpl; [done|].
    rewrite length_app. simpl. lia.
  - destruct s as [[cap [|l0 ls]]]; unfold additive_wf, CircularQueue.len,
      AdditiveLayerStore.erase in *; simpl in *; [done|]. lia.
  - rewrite get_color_keeps_store in Hget by done. by simplify_eq.
  - apply special_returns_reversed in Hsp; [|done]. subst s'.
    destruct s as [[cap ls]]. unfold additive_wf, CircularQueue.len,
      additive_with, additive_content in *. simpl in *.
    by rewrite length_reverse.
Qed.

(** C5: an [AdditiveLayerStore] never holds more than 100 times the
    catalog size; [add] puts the layer at the tail and returns true while
    there is room, and returns false leaving the store as it is once the
    capacity is reached. *)
Theorem additive_add_bounded (self : AdditiveLayerStore.t) (layer : Layer.t) :
  additive_reachable get_layers self ->
  length (additive_content self) <= 100 * length get_layers
  /\ AdditiveLayerStore.add self layer
     = Ok (if decide (length (additive_content self) < 100 * length get_layers)
           then (true, additive_with self (additive_content self ++ [layer]))
           else (false, self)).
Proof.
  intros [Hcap Hwf]%reachable_capacity.
  rewrite add_under_capacity.
  unfold additive_wf, additive_content, CircularQueue.len in *.
  rewrite Hcap in *. split; [lia|].
  repeat case_decide; try done; lia.
Qed.
Lemma reachable_after_adds (ls : list Layer.t) :
  length ls <= length get_layers * 100 ->
  additive_reachable get_layers (additive_of (length get_layers * 100) ls).
Proof.
  induction ls as [|l ls IH] using rev_ind; intros Hlen.
  - apply reach_init.
  - rewrite length_app in Hlen. simpl in Hlen.
    apply (reach_add _ (additive_of (length get_layers * 100) ls) l true).
    + apply IH. lia.
    + rewrite add_under_capacity. unfold additive_of, CircularQueue.len.
      simpl. by rewrite decide_False by lia.
Qed.
End Capacity.
End AdditiveLayerStoreProperties.

(** ** Properties of [ReplayTracker] *)

Section ReplayTrackerProperties.

Lemma play_empty (self : ReplayTracker.t) (g : Grid.t) :
  CircularQueue.items self.(ReplayTracker.action_queue) = [] ->
  ReplayTracker.play_next_action self g = (true, self, g).
Proof.
  intros Hempty. unfold ReplayTracker.play_next_action, CircularQueue.serve.
  by rewrite Hempty.
Qed.

Lemma play_oldest (self : ReplayTracker.t) (g g' : Grid.t)
    (e : PaintAction.t * bool) (rest : list (PaintAction.t * bool)) :
  CircularQueue.items self.(ReplayTracker.action_queue) = e :: rest ->
  entry_effect e g = (g', None) ->
  ReplayTracker.play_next_action self g
  = (false,
     ReplayTracker.mk
       (CircularQueue.mk
          (CircularQueue.capacity self.(ReplayTracker.action_queue)) rest),
     g').
Proof.
  intros Hitems Heff. unfold ReplayTracker.play_next_action, CircularQueue.serve.
  rewrite Hitems. destruct e as [action is_undo].
  unfold entry_effect in Heff. simpl in *. by rewrite Heff.
Qed.

(** When the effect of the oldest entry raises, the [except] clause also
    catches it: the entry is consumed and the call returns true. *)
Lemma play_effect_raises (self : ReplayTracker.t) (g g' : Grid.t) (err : exn)
    (e : PaintAction.t * bool) (rest : list (PaintAction.t * bool)) :
  CircularQueue.items self.(ReplayTracker.action_queue) = e :: rest ->
  entry_effect e g = (g', Some err) ->
  ReplayTracker.play_next_action self g
  = (true,
     ReplayTracker.mk
       (CircularQueue.mk
          (CircularQueue.capacity self.(ReplayTracker.action_queue)) rest),
     g').
Proof.
  intros Hitems Heff. unfold ReplayTracker.play_next_action, CircularQueue.serve.
  rewrite Hitems. destruct e as [action is_undo].
  unfold entry_effect in Heff. simpl in *. by rewrite Heff.
Qed.

Lemma record_all_keeps_first (cap : nat) (entries : list (PaintAction.t * bool)) :
  forall logged : list (PaintAction.t * bool),
  length logged <= cap ->
  record_all entries (ReplayTracker.mk (CircularQueue.mk cap logged))
  = Ok (ReplayTracker.mk (CircularQueue.mk cap (take cap (logged ++ entries)))).
Proof.
  induction entries as [|[action is_undo] entries IH]; intros logged Hroom; simpl.
  - by rewrite app_nil_r, take_ge.
  - unfold ReplayTracker.add_action. simpl.
    unfold CircularQueue.is_full, CircularQueue.len. simpl.
    destruct (Nat.eqb_spec (length logged) cap) as [Heq|Hne]; simpl.
    + rewrite IH by done. subst cap. by rewrite !take_app_length.
    + rewrite queue_append_ok by lia. simpl.
      rewrite IH by (rewrite length_app; simpl; lia).
      by rewrite <- (assoc_L (++)).
Qed.

Lemma play_times_in_order (cap : nat) (entries : list (PaintAction.t * bool)) :
  forall (rest : list (PaintAction.t * bool)) (g g' : Grid.t),
  effects_in_order entries g = Some g' ->
  play_times (length entries)
    (ReplayTracker.mk (CircularQueue.mk cap (entries ++ rest))) g
  = (replicate (length entries) false,
     ReplayTracker.mk (CircularQueue.mk cap rest), g').
Proof.
  induction entries as [|e entries IH]; intros rest g g' Heff; simpl in *.
  - by injection Heff as <-.
  - destruct (entry_effect e g) as [g1 [err|]] eqn:He; [done|].
    erewrite play_oldest by (simpl; done). simpl.
    by rewrite (IH rest g1 g').
Qed.

(** What [play_next_action] does as long as the effects it runs return: on an
    empty log it returns true and leaves the grid as it is; otherwise it
    removes the oldest entry, runs its undo effect when the entry is an undo
    and its redo effect when not, and returns false. The entries logged by
    [add_action] are then played in the order they were recorded; after
    A (redo), B (redo), C (undo), three calls run redo A, redo B, undo C, each
    returning false, and the fourth returns true without touching the grid.
    An effect that raises is the case of [play_effect_raises]. *)
Theorem play_next_action_fifo :
  (forall (self : ReplayTracker.t) (g : Grid.t),
     CircularQueue.items self.(ReplayTracker.action_queue) = [] ->
     ReplayTracker.play_next_action self g = (true, self, g))
  /\ (forall (self : ReplayTracker.t) (g g' : Grid.t)
             (action : PaintAction.t) (is_undo : bool)
             (rest : list (PaintAction.t * bool)),
        CircularQueue.items self.(ReplayTracker.action_queue)
          = (action, is_undo) :: rest ->
        (if is_undo then PaintAction.undo_apply action g
         else PaintAction.redo_apply action g) = (g', None) ->
        ReplayTracker.play_next_action self g
        = (false,
           ReplayTracker.mk
             (CircularQueue.mk
                (CircularQueue.capacity self.(ReplayTracker.action_queue)) rest),
           g'))
  /\ (forall (entries : list (PaintAction.t * bool)) (g g' : Grid.t),
        let logged := take 11000 entries in
        effects_in_order logged g = Some g' ->
        record_all entries ReplayTracker.init = Ok (tracker_with logged)
        /\ play_times (length logged) (tracker_with logged) g
           = (replicate (length logged) false, tracker_with [], g')
        /\ ReplayTracker.play_next_action (tracker_with []) g'
           = (true, tracker_with [], g'))
  /\ (forall (A B C : PaintAction.t) (g gA gB gC : Grid.t),
        PaintAction.redo_apply A g = (gA, None) ->
        PaintAction.redo_apply B gA = (gB, None) ->
        PaintAction.undo_apply C gB = (gC, None) ->
        exists t0 t1 t2 t3 : ReplayTracker.t,
          (tA ← ReplayTracker.add_action ReplayTracker.init A false;
           tB ← ReplayTracker.add_action tA B false;
           ReplayTracker.add_action tB C true) = Ok t0
          /\ ReplayTracker.play_next_action t0 g = (false, t1, gA)
          /\ ReplayTracker.play_next_action t1 gA = (false, t2, gB)
          /\ ReplayTracker.play_next_action t2 gB = (false, t3, gC)
          /\ ReplayTracker.play_next_action t3 gC = (true, t3, gC)).
Proof.
  split_and!.
  - apply play_empty.
  - intros self g g' action is_undo rest Hitems Heff.
    by apply (play_oldest self g g' (action, is_undo) rest).
  - intros entries g g' logged Heff. split_and!.
    + unfold ReplayTracker.init, CircularQueue.new, tracker_with.
      rewrite record_all_keeps_first by (simpl; lia). done.
    + pose proof (play_times_in_order 11000 logged [] g g' Heff) as H.
      by rewrite app_nil_r in H.
    + by apply play_empty.
  - intros A B C g gA gB gC HA HB HC.
    exists (tracker_with [(A, false); (B, false); (C, true)]),
      (tracker_with [(B, false); (C, true)]),
      (tracker_with [(C, true)]), (tracker_with []).
    split_and!.
    + vm_compute. reflexivity.
    + by rewrite (play_oldest _ g gA (A, false) [(B, false); (C, true)]).
    + by rewrite (play_oldest _ gA gB (B, false) [(C, true)]).
    + by rewrite (play_oldest _ gB gC (C, true) []).
    + by apply play_empty.
Qed.
End ReplayTrackerProperties.

(** ** Properties of [SequenceLayerStore] *)

Section BSetLemmas.

Lemma contains_testbit (self : BSet.t) (item : N) :
  BSet.contains self item = N.testbit (BSet.elems self) (item - 1).
Proof.
  unfold BSet.contains.
  change 1%N with (N.ones 1) at 2.
  rewrite N.land_ones, N.shiftr_div_pow2, N.pow_1_r.
  rewrite <- N.testbit_spec'.
  by destruct (N.testbit _ _).
Qed.

Lemma contains_add (self : BSet.t) (item other : N) :
  BSet.contains (BSet.add self item) other
  = BSet.contains self other || N.eqb (item - 1) (other - 1).
Proof.
  rewrite !contains_testbit. unfold BSet.add. simpl.
  by rewrite N.lor_spec, N.shiftl_1_l, N.pow2_bits_eqb.
Qed.

Lemma add_present (self : BSet.t) (item : N) :
  BSet.contains self item = true -> BSet.add self item = self.
Proof.
  rewrite contains_testbit. intros Hbit. destruct self as [a].
  unfold BSet.add. simpl in *. f_equal.
  apply N.bits_inj. intros m.
  rewrite N.lor_spec, N.shiftl_1_l, N.pow2_bits_eqb.
  destruct (N.eqb_spec (item - 1) m) as [<-|]; [|by rewrite orb_false_r].
  by rewrite Hbit.
Qed.

Lemma remove_present (self : BSet.t) (item : N) :
  BSet.contains self item = true ->
  exists self' : BSet.t,
    BSet.remove self item = Ok self'
    /\ forall other : N,
         BSet.contains self' other
         = BSet.contains self other && negb (N.eqb (item - 1) (other - 1)).
Proof.
  intros Hin. unfold BSet.remove. rewrite Hin. eexists. split; [done|].
  intros other. rewrite contains_testbit in Hin. rewrite !contains_testbit.
  simpl. rewrite N.lxor_spec, N.shiftl_1_l, N.pow2_bits_eqb.
  destruct (N.eqb_spec (item - 1) (other - 1)) as [<-|].
  - by rewrite Hin.
  - by rewrite xorb_false_r, andb_true_r.
Qed.

Lemma remove_absent (self : BSet.t) (item : N) :
  BSet.contains self item = false -> BSet.remove self item = Raise KeyError.
Proof. intros Hout. unfold BSet.remove. by rewrite Hout. Qed.
End BSetLemmas.

Section SequenceAddErase.

(** C7: [add(layer)] of a [SequenceLayerStore] makes [layer.index] present
    and returns true exactly when it was absent, a repeated add changing
    nothing; [erase(layer)] makes it absent and returns true exactly when it
    was present, an erase of an absent index changing nothing. No other
    index is touched. *)
Theorem sequence_add_erase (self : SequenceLayerStore.t) (layer : Layer.t) :
  let i := Layer.index layer in
  (fst (SequenceLayerStore.add self layer) = negb (present self i)
   /\ present (snd (SequenceLayerStore.add self layer)) i = true
   /\ (forall j : N, j <> i ->
         present (snd (SequenceLayerStore.add self layer)) j = present self j)
   /\ (present self i = true -> snd (SequenceLayerStore.add self layer) = self))
  /\ (fst (SequenceLayerStore.erase self layer) = present self i
      /\ present (snd (SequenceLayerStore.erase self layer)) i = false
      /\ (forall j : N, j <> i ->
            present (snd (SequenceLayerStore.erase self layer)) j = present self j)
      /\ (present self i = false ->
            snd (SequenceLayerStore.erase self layer) = self)).
Proof.
  intros i. destruct self as [bs]. unfold present, SequenceLayerStore.add,
    SequenceLayerStore.erase. simpl. fold i. split.
  - split_and!.
    + reflexivity.
    + rewrite contains_add, N.eqb_refl. apply orb_true_r.
    + intros j Hj. rewrite contains_add.
      destruct (N.eqb_spec (i + 1 - 1) (j + 1 - 1)); [lia|apply orb_false_r].
    + intros Hin. by rewrite add_present.
  - destruct (BSet.contains bs (i + 1)) eqn:Hin.
    + destruct (remove_present bs (i + 1) Hin) as (bs' & -> & Hbs'). simpl.
      split_and!; [done| | |done].
      * by rewrite Hbs', N.eqb_refl, andb_false_r.
      * intros j Hj. rewrite Hbs'.
        destruct (N.eqb_spec (i + 1 - 1) (j + 1 - 1)); [lia|apply andb_true_r].
    + rewrite remove_absent by done. simpl. done.
Qed.
End SequenceAddErase.

Section StringOrder.

Lemma ltb_name_le (a b : string) : String.ltb a b = true -> name_le a b.
Proof.
  unfold name_le, String.ltb, String.leb. by destruct (String.compare a b).
Qed.

Lemma not_ltb_name_le (a b : string) : String.ltb a b = false -> name_le b a.
Proof.
  unfold name_le, String.ltb, String.leb.
  rewrite (String.compare_antisym a b). by destruct (String.compare b a).
Qed.

#[global] Instance name_le_trans : Transitive name_le.
Proof.
  intros a b c. unfold name_le, String.leb.
  destruct (String.compare a b) eqn:Hab; [|..|done];
    destruct (String.compare b c) eqn:Hbc; try done; intros _ _.
  - apply String.compare_eq_iff in Hab, Hbc. subst.
    pose proof (proj2 (OrderedTypeEx.String_as_OT.cmp_eq c c) eq_refl) as Hcc.
    unfold OrderedTypeEx.String_as_OT.cmp in Hcc. by rewrite Hcc.
  - apply String.compare_eq_iff in Hab. subst. by rewrite Hbc.
  - apply String.compare_eq_iff in Hbc. subst. by rewrite Hab.
  - apply OrderedTypeEx.String_as_OT.cmp_lt in Hab, Hbc.
    pose proof (OrderedTypeEx.String_as_OT.lt_trans _ _ _ Hab Hbc) as Hac.
    apply OrderedTypeEx.String_as_OT.cmp_lt in Hac.
    unfold OrderedTypeEx.String_as_OT.cmp in Hac. by rewrite Hac.
Qed.

#[global] Instance name_le_antisym : AntiSymm (=) name_le.
Proof. intros a b. apply String.leb_antisym. Qed.

#[global] Instance item_le_trans : Transitive item_le.
Proof. intros a b c. unfold item_le. apply name_le_trans. Qed.
End StringOrder.

Section SortedInsertion.

Lemma sorted_add_perm (l : list ListItem.t) (item : ListItem.t) :
  ArraySortedList.add l item ≡ₚ item :: l.
Proof.
  induction l as [|h l IH]; simpl; [done|].
  destruct (String.ltb _ _); [|done].
  rewrite IH. apply Permutation_swap.
Qed.

Lemma sorted_add_sorted (l : list ListItem.t) (item : ListItem.t) :
  StronglySorted item_le l -> StronglySorted item_le (ArraySortedList.add l item).
Proof.
  induction 1 as [|h l Hl IH Hh]; simpl.
  - repeat constructor.
  - destruct (String.ltb _ _) eqn:Hlt.
    + constructor; [done|]. rewrite sorted_add_perm.
      constructor; [by apply ltb_name_le|done].
    + apply not_ltb_name_le in Hlt.
      constructor; [by constructor|].
      constructor; [done|].
      eapply Forall_impl; [exact Hh|]. intros x Hx. by etrans.
Qed.

Lemma foldl_add_perm (items : list ListItem.t) :
  forall acc : list ListItem.t,
  foldl ArraySortedList.add acc items ≡ₚ acc ++ items.
Proof.
  induction items as [|it items IH]; intros acc; simpl.
  - by rewrite app_nil_r.
  - rewrite IH, sorted_add_perm. simpl. apply Permutation_middle.
Qed.

Lemma foldl_add_sorted (items : list ListItem.t) :
  forall acc : list ListItem.t,
  StronglySorted item_le acc ->
  StronglySorted item_le (foldl ArraySortedList.add acc items).
Proof.
  induction items as [|it items IH]; intros acc Hacc; simpl; [done|].
  by apply IH, sorted_add_sorted.
Qed.
End SortedInsertion.

Section SequenceSpecial.
Variable get_layers : list Layer.t.

Lemma special_loop_collects (self : SequenceLayerStore.t) (indices : list nat) :
  forall acc : list ListItem.t,
  Forall (fun index => 1 <= index <= length get_layers) indices ->
  SequenceLayerStore.special_loop get_layers self indices acc
  = Ok (foldl ArraySortedList.add acc (present_items get_layers self indices)).
Proof.
  induction indices as [|index indices IH]; intros acc Hrange; [done|].
  apply Forall_cons in Hrange as [Hindex Hrange].
  unfold present_items. simpl.
  destruct (BSet.contains _ _); [|by apply IH].
  unfold SequenceLayerStore.catalog_getitem.
  destruct (lookup_lt_is_Some_2 get_layers (index - 1)) as [l Hl]; [lia|].
  rewrite Hl. simpl. by apply IH.
Qed.

Lemma present_items_shift (self : SequenceLayerStore.t) (l : list nat) :
  item_pair <$> present_items get_layers self (S <$> l)
  = omap (fun i : nat =>
            if present self (N.of_nat i)
            then (fun l => (N.of_nat i, Layer.name l)) <$> get_layers !! i
            else None) l.
Proof.
  induction l as [|i l IH]; [done|].
  unfold present_items, present in *. csimpl.
  rewrite Nat.sub_0_r, N.add_1_r, <- Nat2N.inj_succ.
  destruct (BSet.contains _ _); [|exact IH].
  destruct (get_layers !! i) as [layer|]; csimpl; [|exact IH].
  rewrite IH. f_equal. unfold item_pair. simpl. f_equal. lia.
Qed.

Lemma present_items_pairs (self : SequenceLayerStore.t) :
  item_pair <$> present_items get_layers self (seq 1 (length get_layers))
  = present_pairs get_layers self.
Proof. rewrite <- fmap_S_seq. apply present_items_shift. Qed.

Lemma present_items_held (self : SequenceLayerStore.t) (indices : list nat)
    (it : ListItem.t) :
  Forall (fun index => 1 <= index) indices ->
  it ∈ present_items get_layers self indices ->
  BSet.contains self.(SequenceLayerStore.layers) (ListItem.value it) = true
  /\ (1 <= ListItem.value it)%N.
Proof.
  intros Hpos (index & Hin & Hit)%list_elem_of_omap.
  rewrite Forall_forall in Hpos. specialize (Hpos index Hin).
  destruct (BSet.contains _ _) eqn:Hheld; [|done].
  destruct (get_layers !! (index - 1)); simplify_eq/=. split; [done|lia].
Qed.

(** The pairs are the catalog entries whose index is present, each with its
    name. *)
Lemma present_pairs_spec (self : SequenceLayerStore.t) (i : N) (nm : string) :
  (i, nm) ∈ present_pairs get_layers self
  <-> present self i = true
      /\ Layer.name <$> get_layers !! N.to_nat i = Some nm.
Proof.
  unfold present_pairs. rewrite list_elem_of_omap. split.
  - intros (k & Hk & Hf).
    destruct (present self (N.of_nat k)) eqn:Hheld; [|done].
    destruct (get_layers !! k) as [l|] eqn:Hl; simplify_eq/=.
    rewrite Nat2N.id, Hl. done.
  - intros [Hheld Hname]. exists (N.to_nat i).
    destruct (get_layers !! N.to_nat i) as [l|] eqn:Hl; simplify_eq/=.
    split.
    + apply elem_of_seq. apply lookup_lt_Some in Hl. lia.
    + by rewrite N2Nat.id, Hheld.
Qed.

(** C1: [special()] of a [SequenceLayerStore] does nothing when no catalog
    index is present. Otherwise it removes exactly one index: with the
    present (index, name) pairs sorted ascending by name, the one at
    position [(count - 1) // 2], which is the single middle for an odd count
    and the first of the two middles for an even one. Every way of sorting
    the pairs by name gives the same name at that position. *)
Theorem sequence_special_removes_median (self : SequenceLayerStore.t) :
  let pairs := present_pairs get_layers self in
  let count := length pairs in
  let pos := (count - 1) / 2 in
  match pairs with
  | [] => SequenceLayerStore.special get_layers self = Ok self
  | _ :: _ =>
      exists (i : N) (nm : string) (self' : SequenceLayerStore.t),
        SequenceLayerStore.special get_layers self = Ok self'
        /\ (i, nm) ∈ pairs
        /\ present self i = true
        /\ (exists sorted : list (N * string),
              sorted ≡ₚ pairs /\ sorted_by_name sorted
              /\ sorted !! pos = Some (i, nm))
        /\ (forall sorted : list (N * string),
              sorted ≡ₚ pairs -> sorted_by_name sorted ->
              snd <$> sorted !! pos = Some nm)
        /\ (count = 2 * pos + 1 \/ count = 2 * pos + 2)
        /\ present self' i = false
        /\ (forall j : N, j <> i -> present self' j = present self j)
  end.
Proof.
  intros pairs count pos.
  set (items := present_items get_layers self (seq 1 (length get_layers))).
  set (sorted0 := foldl ArraySortedList.add [] items).
  assert (Forall (fun index => 1 <= index <= length get_layers)
            (seq 1 (length get_layers))) as Hrange.
  { apply Forall_forall. intros index Hin%elem_of_seq. lia. }
  assert (SequenceLayerStore.special_loop get_layers self
            (seq 1 (length get_layers)) [] = Ok sorted0) as Hloop.
  { by apply special_loop_collects. }
  assert (sorted0 ≡ₚ items) as Hperm by apply foldl_add_perm.
  assert (StronglySorted item_le sorted0) as Hsorted.
  { apply foldl_add_sorted. constructor. }
  assert (item_pair <$> items = pairs) as Hpairs by apply present_items_pairs.
  assert (length sorted0 = count) as Hcount.
  { unfold count. by rewrite <- Hpairs, length_fmap, Hperm. }
  unfold SequenceLayerStore.special, ArraySortedList.new. rewrite Hloop. simpl.
  unfold ArraySortedList.len. rewrite Hcount. fold pos.
  destruct pairs as [|p pairs'] eqn:Epairs.
  { by replace count with 0. }
  assert (0 < count) as Hpos by (unfold count; simpl; lia).
  assert (pos < count) as Hlt.
  { unfold pos. apply Nat.Div0.div_lt_upper_bound. lia. }
  destruct (Nat.ltb_spec 0 count) as [_|]; [|lia].
  destruct (lookup_lt_is_Some_2 sorted0 pos) as [it Hit]; [lia|].
  unfold ArraySortedList.getitem.
  change ((Nat.divmod (count - 1) 1 0 1).1) with pos. rewrite Hit. simpl.
  assert (it ∈ items) as Hin.
  { rewrite <- Hperm. by eapply list_elem_of_lookup_2. }
  destruct (present_items_held self (seq 1 (length get_layers)) it)
    as [Hheld Hone]; [|exact Hin|].
  { eapply Forall_impl; [exact Hrange|]. simpl. lia. }
  destruct (remove_present _ _ Hheld) as (bs' & -> & Hbs'). simpl.
  exists (ListItem.value it - 1)%N, (ListItem.key it),
    (SequenceLayerStore.mk bs').
  assert (ListItem.value it - 1 + 1 = ListItem.value it)%N as Hval by lia.
  assert (item_pair <$> sorted0 ≡ₚ p :: pairs') as Hperm'.
  { by rewrite <- Hpairs, Hperm. }
  assert (sorted_by_name (item_pair <$> sorted0)) as Hsorted'.
  { apply (Sorted_fmap _ item_le); [done|]. by apply StronglySorted_Sorted. }
  split_and!.
  - reflexivity.
  - rewrite <- Hpairs. by apply (list_elem_of_fmap_2 item_pair).
  - unfold present. by rewrite Hval.
  - exists (item_pair <$> sorted0). split_and!; [done..|].
    by rewrite list_lookup_fmap, Hit.
  - intros sorted Hp Hs.
    assert (snd <$> sorted = snd <$> (item_pair <$> sorted0)) as Hnames.
    { apply (Sorted_unique name_le).
      - by apply (Sorted_fmap _ (fun p q => name_le (snd p) (snd q))).
      - by apply (Sorted_fmap _ (fun p q => name_le (snd p) (snd q))).
      - by rewrite Hp, Hperm'. }
    by rewrite <- list_lookup_fmap, Hnames, !list_lookup_fmap, Hit.
  - unfold pos.
    pose proof (Nat.div_mod_eq (count - 1) 2) as Hdm.
    pose proof (Nat.mod_upper_bound (count - 1) 2). lia.
  - unfold present. simpl. by rewrite Hbs', Hval, N.eqb_refl, andb_false_r.
  - intros j Hj. unfold present. simpl. rewrite Hbs'.
    destruct (N.eqb_spec (ListItem.value it - 1) (j + 1 - 1));
      [lia|apply andb_true_r].
Qed.
End SequenceSpecial.

(** ** The properties on concrete stores *)

(** Black, lighten, invert applied oldest first to (10, 20, 30). *)
Lemma additive_get_color_fold_witness :
  additive_wf (additive_of 5 [black; lighten; invert])
  /\ AdditiveLayerStore.get_color (additive_of 5 [black; lighten; invert])
       (10, 20, 30)%Z 0 0 0
     = Ok ((215, 215, 215)%Z, additive_of 5 [black; lighten; invert]).
Proof.
  split.
  - unfold additive_wf, CircularQueue.len. simpl. lia.
  - rewrite (additive_get_color_fold (additive_of 5 [black; lighten; invert])).
    + reflexivity.
    + unfold additive_wf, CircularQueue.len. simpl. lia.
Defined.

(** Reversing black, lighten, invert gives invert, lighten, black. *)
Lemma additive_special_reverses_witness :
  exists self' : AdditiveLayerStore.t,
    AdditiveLayerStore.special 4 (additive_of 5 [black; lighten; invert]) = Ok self'
    /\ additive_content self' = [invert; lighten; black]
    /\ AdditiveLayerStore.special 4 self'
       = Ok (additive_of 5 [black; lighten; invert]).
Proof.
  destruct (additive_special_reverses 4 (additive_of 5 [black; lighten; invert]))
    as (self' & Hsp & Hrev & _ & _ & _ & Hback).
  - unfold additive_wf, CircularQueue.len. simpl. lia.
  - unfold additive_content. simpl. lia.
  - exists self'. split_and!; [exact Hsp|exact Hrev|exact Hback].
Defined.

(** With a one-layer catalog the store is full after 100 layers: one more
    [add] returns false and changes nothing. *)
Lemma additive_add_bounded_witness :
  let full := additive_of 100 (replicate 100 black) in
  AdditiveLayerStore.add full lighten = Ok (false, full).
Proof.
  intros full.
  destruct (additive_add_bounded [black] full lighten) as [_ Hadd].
  - apply (reachable_after_adds [black] (replicate 100 black)).
    rewrite length_replicate. simpl. lia.
  - rewrite Hadd. reflexivity.
Defined.

(** All four catalog layers present: sorted by name they are black, darken,
    invert, lighten, and [special] removes darken, the first of the two
    middles. *)
Lemma sequence_special_removes_median_witness :
  exists self' : SequenceLayerStore.t,
    SequenceLayerStore.special sample_catalog (sequence_of [0; 1; 2; 3]%N) = Ok self'
    /\ present self' (Layer.index darken) = false
    /\ present self' (Layer.index black) = true
    /\ present self' (Layer.index invert) = true
    /\ present self' (Layer.index lighten) = true.
Proof.
  pose proof (sequence_special_removes_median sample_catalog
                (sequence_of [0; 1; 2; 3]%N)) as H.
  hnf in H.
  destruct H as (i & nm & self' & Hsp & Hin & _ & _ & Hname & _ & Hgone & Hkeep).
  specialize (Hname [(0%N, "black"%string); (3%N, "darken"%string);
                     (2%N, "invert"%string); (1%N, "lighten"%string)]).
  assert (nm = "darken"%string) as ->.
  { assert (Some "darken"%string = Some nm) as [= <-]; [|done].
    apply Hname.
    - apply perm_skip. apply (reverse_Permutation [(1%N, _); (2%N, _); (3%N, _)]).
    - repeat constructor. }
  assert (i = 3%N) as ->.
  { change (present_pairs _ _)
      with [(0%N, "black"%string); (1%N, "lighten"%string);
            (2%N, "invert"%string); (3%N, "darken"%string)] in Hin.
    repeat (apply elem_of_cons in Hin as [Heq|Hin]; [by simplify_eq|]).
    by apply elem_of_nil in Hin. }
  exists self'. split_and!; [exact Hsp|exact Hgone|..];
    by rewrite Hkeep.
Defined.

(** Present indices 1, 3, 5 named a, m, z: [special] removes the one named m. *)
Example sequence_special_odd :
  SequenceLayerStore.special
    [named 0 "q"; named 1 "a"; named 2 "r"; named 3 "m"; named 4 "s"; named 5 "z"]
    (sequence_of [1; 3; 5]%N)
  = Ok (sequence_of [1; 5]%N).
Proof. reflexivity. Qed.

(** Present names d, b, a, c: [special] removes the one named b. *)
Example sequence_special_even :
  SequenceLayerStore.special
    [named 0 "d"; named 1 "b"; named 2 "a"; named 3 "c"]
    (sequence_of [0; 1; 2; 3]%N)
  = Ok (sequence_of [0; 2; 3]%N).
Proof. reflexivity. Qed.

(** Adding lighten twice, then erasing it twice. *)
Lemma sequence_add_erase_witness :
  let once := snd (SequenceLayerStore.add SequenceLayerStore.init lighten) in
  fst (SequenceLayerStore.add SequenceLayerStore.init lighten) = true
  /\ SequenceLayerStore.add once lighten = (false, once)
  /\ fst (SequenceLayerStore.erase once lighten) = true
  /\ SequenceLayerStore.erase SequenceLayerStore.init lighten
     = (false, SequenceLayerStore.init).
Proof.
  intros once.
  destruct (sequence_add_erase SequenceLayerStore.init lighten)
    as [(Hadd & _) (Herase & _ & _ & Hnoop)].
  destruct (sequence_add_erase once lighten)
    as [(Hadd' & _ & _ & Hdup) (Herase' & _)].
  split_and!.
  - rewrite Hadd. reflexivity.
  - apply injective_projections; [rewrite Hadd'; reflexivity|].
    apply Hdup. reflexivity.
  - rewrite Herase'. reflexivity.
  - apply injective_projections; [rewrite Herase; reflexivity|].
    apply Hnoop. reflexivity.
Defined.

(** Painting black on (0, 0), lighten on (0, 1), then undoing the black:
    replayed in that order on a 2 x 2 grid, and the fourth call finds the log
    empty. *)
Lemma play_next_action_fifo_witness :
  let A := paint 0 0 black in
  let B := paint 0 1 lighten in
  let gA := fst (PaintAction.redo_apply A sample_grid) in
  let gB := fst (PaintAction.redo_apply B gA) in
  let gC := fst (PaintAction.undo_apply A gB) in
  exists t0 t1 t2 t3 : ReplayTracker.t,
    (tA ← ReplayTracker.add_action ReplayTracker.init A false;
     tB ← ReplayTracker.add_action tA B false;
     ReplayTracker.add_action tB A true) = Ok t0
    /\ ReplayTracker.play_next_action t0 sample_grid = (false, t1, gA)
    /\ ReplayTracker.play_next_action t1 gA = (false, t2, gB)
    /\ ReplayTracker.play_next_action t2 gB = (false, t3, gC)
    /\ ReplayTracker.play_next_action t3 gC = (true, t3, gC).
Proof.
  intros A B gA gB gC.
  destruct play_next_action_fifo as (_ & _ & _ & Habc).
  apply (Habc A B A sample_grid gA gB gC); reflexivity.
Defined.

(** C4: [play_next_action] is to return false whenever an entry was dequeued
    and played, and true only on an empty log. It does not: with one recorded
    action whose step lies outside the grid, the log is not empty, the redo
    effect raises an IndexError, and the [except] clause meant for the empty
    queue catches it, so the call returns true with the entry consumed. *)
Example play_step_outside_grid :
  ReplayTracker.add_action ReplayTracker.init (paint 5 0 black) false
  = Ok (tracker_with [(paint 5 0 black, false)])
  /\ PaintAction.redo_apply (paint 5 0 black) sample_grid
     = (sample_grid, Some IndexError)
  /\ ReplayTracker.play_next_action
       (tracker_with [(paint 5 0 black, false)]) sample_grid
     = (true, tracker_with [], sample_grid).
Proof. split_and!; reflexivity. Qed.

(** ** Further properties of [SetLayerStore] *)

Section SetLayerStoreHistory.
Variable invert : Layer.t.

(** X1: whatever was added, erased or toggled before, after [add(layer)] a
    [SetLayerStore] shows [layer] applied to the start colour, inverted
    exactly when [special()] was called an odd number of times; adding the
    same layer again returns false. *)
Theorem set_last_add_wins (calls : list set_call) (layer : Layer.t)
    (start : colour) (timestamp x y : Z) :
  let self := set_run calls SetLayerStore.init in
  SetLayerStore.get_color invert (snd (SetLayerStore.add self layer))
    start timestamp x y
  = (if Nat.odd (special_count calls)
     then Layer.apply invert (Layer.apply layer start timestamp x y) timestamp x y
     else Layer.apply layer start timestamp x y)
  /\ fst (SetLayerStore.add (snd (SetLayerStore.add self layer)) layer) = false.
Proof.
  intros self. split.
  - rewrite <- (set_run_on_special calls). fold self.
    unfold SetLayerStore.get_color, SetLayerStore.add. simpl.
    by destruct (SetLayerStore.on_special self).
  - unfold SetLayerStore.add, SetLayerStore.differs, Layer.eqb. simpl.
    by rewrite N.eqb_refl.
Qed.

(** X2: [erase] of a [SetLayerStore] returns true exactly when a layer was
    held, whichever layer is passed; a second [erase] returns false and
    changes nothing. *)
Theorem set_erase_once (self : SetLayerStore.t) (layer layer' : Layer.t) :
  fst (SetLayerStore.erase self layer)
  = bool_decide (SetLayerStore.layer self <> None)
  /\ SetLayerStore.erase self layer = SetLayerStore.erase self layer'
  /\ SetLayerStore.erase (snd (SetLayerStore.erase self layer)) layer'
     = (false, snd (SetLayerStore.erase self layer)).
Proof.
  destruct self as [[held|] flag]; unfold SetLayerStore.erase; simpl; done.
Qed.
End SetLayerStoreHistory.

(** ** Further properties of [AdditiveLayerStore] *)

Section AdditiveLayerStoreComposition.

(** X3: [erase] of an [AdditiveLayerStore] takes the oldest layer, not the
    one passed: on an empty store it returns false and changes nothing, and
    after an [add] that found room it removes the head of the content with
    the new layer at the tail, so add-then-erase on an empty store gives the
    empty store back. *)
Theorem additive_erase_oldest (self : AdditiveLayerStore.t) (layer other : Layer.t) :
  length (additive_content self)
    < CircularQueue.capacity self.(AdditiveLayerStore.layers) ->
  (additive_content self = [] ->
     AdditiveLayerStore.erase self other = (false, self))
  /\ exists self1 : AdditiveLayerStore.t,
       AdditiveLayerStore.add self layer = Ok (true, self1)
       /\ AdditiveLayerStore.erase self1 other
          = (true, additive_with self (tail (additive_content self ++ [layer]))).
Proof.
  destruct self as [[cap ls]]. unfold additive_content, additive_with. simpl.
  intros Hroom. split.
  - intros ->. reflexivity.
  - rewrite add_under_capacity. unfold CircularQueue.len. simpl.
    rewrite decide_False by lia. eexists. split; [reflexivity|].
    unfold additive_with, additive_content, AdditiveLayerStore.erase. simpl.
    by destruct ls.
Qed.

(** X4: a layer added to an [AdditiveLayerStore] that has room applies after
    all the layers already there: the colour after the [add] is the new
    layer applied to the colour before it. *)
Theorem additive_add_applies_last (self : AdditiveLayerStore.t) (layer : Layer.t)
    (start : colour) (timestamp x y : Z) :
  length (additive_content self)
    < CircularQueue.capacity self.(AdditiveLayerStore.layers) ->
  exists (self1 : AdditiveLayerStore.t) (before : colour),
    AdditiveLayerStore.add self layer = Ok (true, self1)
    /\ AdditiveLayerStore.get_color self start timestamp x y = Ok (before, self)
    /\ AdditiveLayerStore.get_color self1 start timestamp x y
       = Ok (Layer.apply layer before timestamp x y, self1).
Proof.
  intros Hroom.
  rewrite add_under_capacity. unfold additive_content, CircularQueue.len in *.
  rewrite decide_False by lia.
  eexists _, _. split; [reflexivity|]. split.
  - apply get_color_keeps_store. unfold additive_wf, CircularQueue.len. lia.
  - rewrite get_color_keeps_store.
    + unfold additive_with, additive_content, apply_in_order. simpl.
      by rewrite foldl_app.
    + destruct self as [[cap ls]]. unfold additive_wf, additive_with,
        additive_content, CircularQueue.len in *. simpl in *.
      rewrite length_app. simpl. lia.
Qed.

(** X5: after [special()] an [AdditiveLayerStore] applies its layers newest
    first: [get_color] is the start colour folded through the layers in the
    opposite of the order they were added. *)
Theorem additive_special_then_get_color (fuel : nat) (self : AdditiveLayerStore.t)
    (start : colour) (timestamp x y : Z) :
  additive_wf self -> length (additive_content self) < fuel ->
  exists self1 : AdditiveLayerStore.t,
    AdditiveLayerStore.special fuel self = Ok self1
    /\ AdditiveLayerStore.get_color self1 start timestamp x y
       = Ok (apply_newest_first (additive_content self) start timestamp x y, self1).
Proof.
  intros Hwf Hfuel. eexists. split; [by apply special_reverses|].
  rewrite get_color_keeps_store.
  - f_equal. f_equal. destruct self as [[cap ls]].
    unfold additive_with, additive_content, apply_in_order, apply_newest_first.
    simpl. clear. revert start.
    induction ls as [|l ls IH]; intros start; [done|].
    rewrite reverse_cons, foldl_app. simpl. by rewrite IH.
  - destruct self as [[cap ls]]. unfold additive_wf, additive_with,
      additive_content, CircularQueue.len in *. simpl in *.
    by rewrite length_reverse.
Qed.
End AdditiveLayerStoreComposition.

(** ** Further properties of [SequenceLayerStore] *)

Section SequenceLayerStoreMore.
Variable get_layers : list Layer.t.

Lemma get_color_fold_shift (self : SequenceLayerStore.t) (timestamp x y : Z)
    (l : list nat) :
  forall c : colour,
  foldl (SequenceLayerStore.get_color_step get_layers self timestamp x y) c
    (S <$> l)
  = apply_in_order
      (omap (fun i : nat =>
               if present self (N.of_nat i) then get_layers !! i else None) l)
      c timestamp x y.
Proof.
  induction l as [|i l IH]; intros c; [done|].
  csimpl. rewrite IH. clear IH.
  unfold SequenceLayerStore.get_color_step, present,
    SequenceLayerStore.catalog_getitem.
  replace (S i - 1) with i by lia.
  rewrite N.add_1_r, <- Nat2N.inj_succ.
  destruct (BSet.contains _ _); [|done].
  by destruct (get_layers !! i).
Qed.

(** X6: [get_color] of a [SequenceLayerStore] applies the catalog layers whose
    index is present, in ascending catalog order and each once, whatever the
    order they were added in; it raises nothing and ignores absent indices. *)
Theorem sequence_get_color_catalog_order (self : SequenceLayerStore.t)
    (start : colour) (timestamp x y : Z) :
  SequenceLayerStore.get_color get_layers self start timestamp x y
  = apply_in_order (present_layers get_layers self) start timestamp x y.
Proof.
  unfold SequenceLayerStore.get_color, present_layers.
  rewrite <- fmap_S_seq. apply get_color_fold_shift.
Qed.

(** X7: two [add] calls on a [SequenceLayerStore] leave the same store in
    either order, hence the same colour. *)
Theorem sequence_add_commute (self : SequenceLayerStore.t) (a b : Layer.t)
    (start : colour) (timestamp x y : Z) :
  let ab := snd (SequenceLayerStore.add (snd (SequenceLayerStore.add self a)) b) in
  let ba := snd (SequenceLayerStore.add (snd (SequenceLayerStore.add self b)) a) in
  ab = ba
  /\ SequenceLayerStore.get_color get_layers ab start timestamp x y
     = SequenceLayerStore.get_color get_layers ba start timestamp x y.
Proof.
  intros ab ba.
  assert (ab = ba) as ->; [|done].
  unfold ab, ba, SequenceLayerStore.add, BSet.add. simpl. do 2 f_equal.
  rewrite <- !N.lor_assoc. f_equal. apply N.lor_comm.
Qed.

(** X8: on a [SequenceLayerStore], [erase] undoes an [add] that changed the
    store and [add] undoes an [erase] that changed it: the store that comes
    back is the one before. *)
Theorem sequence_add_erase_round_trip (self : SequenceLayerStore.t) (layer : Layer.t) :
  (present self (Layer.index layer) = false ->
     SequenceLayerStore.erase (snd (SequenceLayerStore.add self layer)) layer
     = (true, self))
  /\ (present self (Layer.index layer) = true ->
        SequenceLayerStore.add (snd (SequenceLayerStore.erase self layer)) layer
        = (true, self)).
Proof.
  destruct self as [[a]]. unfold present. simpl.
  set (n := (Layer.index layer + 1 - 1)%N).
  split; intros Hin.
  - unfold SequenceLayerStore.erase, SequenceLayerStore.add. simpl.
    unfold BSet.remove. rewrite contains_add, N.eqb_refl, orb_true_r. simpl.
    do 3 f_equal. rewrite contains_testbit in Hin. simpl in Hin.
    apply N.bits_inj. intros m.
    rewrite N.lxor_spec, N.lor_spec, N.shiftl_1_l, N.pow2_bits_eqb.
    fold n in Hin |- *.
    destruct (N.eqb_spec n m) as [<-|];
      [by rewrite Hin|by rewrite orb_false_r, xorb_false_r].
  - unfold SequenceLayerStore.erase, SequenceLayerStore.add. simpl.
    unfold BSet.remove. rewrite Hin. simpl.
    rewrite contains_testbit in Hin. simpl in Hin. fold n in Hin.
    f_equal.
    + rewrite contains_testbit. simpl.
      rewrite N.lxor_spec, N.shiftl_1_l, N.pow2_bits_eqb. fold n.
      by rewrite Hin, N.eqb_refl.
    + unfold BSet.add. simpl. do 2 f_equal.
      apply N.bits_inj. intros m.
      rewrite N.lor_spec, N.lxor_spec, N.shiftl_1_l, N.pow2_bits_eqb.
      fold n.
      destruct (N.eqb_spec n m) as [<-|];
        [by rewrite Hin|by rewrite orb_false_r, xorb_false_r].
Qed.
Lemma special_outcome (self : SequenceLayerStore.t) :
  (present_pairs get_layers self = []
   /\ SequenceLayerStore.special get_layers self = Ok self)
  \/ exists (i : N) (nm : string) (self' : SequenceLayerStore.t),
       SequenceLayerStore.special get_layers self = Ok self'
       /\ (i, nm) ∈ present_pairs get_layers self
       /\ forall j : N, present self' j = present self j && negb (N.eqb i j).
Proof.
  set (items := present_items get_layers self (seq 1 (length get_layers))).
  set (sorted0 := foldl ArraySortedList.add [] items).
  assert (Forall (fun index => 1 <= index <= length get_layers)
            (seq 1 (length get_layers))) as Hrange.
  { apply Forall_forall. intros index Hin%elem_of_seq. lia. }
  assert (sorted0 ≡ₚ items) as Hperm by apply foldl_add_perm.
  assert (item_pair <$> items = present_pairs get_layers self) as Hpairs
    by apply present_items_pairs.
  unfold SequenceLayerStore.special, ArraySortedList.new.
  rewrite (special_loop_collects get_layers self _ [] Hrange). fold items sorted0.
  unfold ArraySortedList.len. simpl.
  destruct (Nat.ltb_spec 0 (length sorted0)) as [Hpos|Hzero].
  - right.
    set (pos := (Nat.divmod (length sorted0 - 1) 1 0 1).1).
    assert (pos < length sorted0) as Hlt.
    { change pos with ((length sorted0 - 1) / 2).
      apply Nat.Div0.div_lt_upper_bound. lia. }
    destruct (lookup_lt_is_Some_2 sorted0 pos Hlt) as [it Hit].
    unfold ArraySortedList.getitem. rewrite Hit. simpl.
    assert (it ∈ items) as Hin.
    { rewrite <- Hperm. by eapply list_elem_of_lookup_2. }
    destruct (present_items_held get_layers self (seq 1 (length get_layers)) it)
      as [Hheld Hone]; [|exact Hin|].
    { eapply Forall_impl; [exact Hrange|]. simpl. lia. }
    destruct (remove_present _ _ Hheld) as (bs' & -> & Hbs'). simpl.
    exists (ListItem.value it - 1)%N, (ListItem.key it),
      (SequenceLayerStore.mk bs').
    split_and!; [done| |].
    + rewrite <- Hpairs. by apply (list_elem_of_fmap_2 item_pair).
    + intros j. unfold present. simpl. rewrite Hbs'.
      by replace (j + 1 - 1)%N with j by lia.
  - left. split; [|done].
    rewrite <- Hpairs. apply nil_length_inv.
    rewrite length_fmap, <- Hperm. lia.
Qed.

Lemma omap_without_one {B : Type} (f f' : nat -> option B) (k0 : nat)
    (l : list nat) :
  NoDup l -> k0 ∈ l -> is_Some (f k0) -> f' k0 = None ->
  (forall k : nat, k <> k0 -> f' k = f k) ->
  length (omap f' l) + 1 = length (omap f l).
Proof.
  intros Hnodup Hin [b Hb] Hnone Hsame.
  induction Hnodup as [|k l Hk Hnodup IH]; [by apply elem_of_nil in Hin|].
  csimpl. destruct (decide (k = k0)) as [->|Hne].
  - rewrite Hb, Hnone. simpl.
    rewrite (list_omap_ext f' f l l); [lia|].
    apply Forall_Forall2_diag, Forall_forall. intros k Hkl.
    apply Hsame. by intros ->.
  - apply elem_of_cons in Hin as [->|Hin]; [done|].
    rewrite (Hsame k Hne). destruct (f k); simpl; rewrite <- IH by done; lia.
Qed.

Lemma special_drops_one_pair (self : SequenceLayerStore.t) :
  exists self' : SequenceLayerStore.t,
    SequenceLayerStore.special get_layers self = Ok self'
    /\ length (present_pairs get_layers self')
       = length (present_pairs get_layers self) - 1.
Proof.
  destruct (special_outcome self) as [[Hnil ->]|(i & nm & self' & -> & Hin & Hj)].
  - exists self. by rewrite Hnil.
  - exists self'. split; [done|].
    apply present_pairs_spec in Hin as [Hheld Hname].
    destruct (get_layers !! N.to_nat i) as [l|] eqn:Hl; [|done].
    unfold present_pairs.
    pose proof (omap_without_one
      (fun k : nat =>
         if present self (N.of_nat k)
         then (fun l => (N.of_nat k, Layer.name l)) <$> get_layers !! k
         else None)
      (fun k : nat =>
         if present self' (N.of_nat k)
         then (fun l => (N.of_nat k, Layer.name l)) <$> get_layers !! k
         else None) (N.to_nat i) (seq 0 (length get_layers))) as Hone.
    rewrite <- Hone; [lia|..].
    + apply NoDup_seq.
    + apply elem_of_seq. apply lookup_lt_Some in Hl. lia.
    + rewrite N2Nat.id, Hheld, Hl. by eexists.
    + by rewrite N2Nat.id, Hj, N.eqb_refl, andb_false_r.
    + intros k Hk. rewrite Hj.
      destruct (N.eqb_spec i (N.of_nat k)) as [->|];
        [by rewrite Nat2N.id in Hk|by rewrite andb_true_r].
Qed.

(** X9: [special()] of a [SequenceLayerStore] always returns, and each call
    lowers the number of present catalog indices by one until none is left:
    after [n] calls the count is the count before minus [n], so as many calls
    as there were present indices empty the store of them. *)
Theorem sequence_special_times (n : nat) (self : SequenceLayerStore.t) :
  exists self' : SequenceLayerStore.t,
    special_times get_layers n self = Ok self'
    /\ length (present_pairs get_layers self')
       = length (present_pairs get_layers self) - n
    /\ (length (present_pairs get_layers self) <= n ->
          forall i : N, (i < N.of_nat (length get_layers))%N ->
            present self' i = false).
Proof.
  assert (exists self' : SequenceLayerStore.t,
            special_times get_layers n self = Ok self'
            /\ length (present_pairs get_layers self')
               = length (present_pairs get_layers self) - n)
    as (self' & Hrun & Hcount).
  { revert self. induction n as [|n IH]; intros self; simpl.
    - exists self. split; [done|lia].
    - destruct (special_drops_one_pair self) as (s1 & -> & H1). simpl.
      destruct (IH s1) as (s2 & -> & H2). exists s2. split; [done|lia]. }
  exists self'. split_and!; [done..|].
  intros Hle i Hi.
  destruct (present self' i) eqn:Hheld; [|done]. exfalso.
  destruct (lookup_lt_is_Some_2 get_layers (N.to_nat i)) as [l Hl]; [lia|].
  assert ((i, Layer.name l) ∈ present_pairs get_layers self') as Hin.
  { apply present_pairs_spec. by rewrite Hl. }
  destruct (present_pairs get_layers self'); [by apply elem_of_nil in Hin|].
  simpl in Hcount. lia.
Qed.
End SequenceLayerStoreMore.

(** ** Properties of [Grid.special], [Grid.__getitem__] and the constructor *)

Section GridSpecial.
Variable get_layers : list Layer.t.

Lemma lookup_foldl_alter {A : Type} (h : A -> A) (n : nat) :
  forall (k : nat) (l : list A) (p : nat),
  foldl (fun r j => alter h j r) l (seq k n) !! p
  = if decide (k <= p < k + n) then h <$> l !! p else l !! p.
Proof.
  induction n as [|n IH]; intros k l p; simpl.
  - rewrite decide_False by lia. done.
  - rewrite IH. destruct (decide (p = k)) as [->|Hne].
    + rewrite decide_False by lia. rewrite decide_True by lia.
      apply list_lookup_alter_eq.
    + rewrite list_lookup_alter_ne by done.
      repeat case_decide; try done; lia.
Qed.

Lemma foldl_alter_all {A : Type} (h : A -> A) (l : list A) :
  foldl (fun r j => alter h j r) l (seq 0 (length l)) = h <$> l.
Proof.
  apply list_eq. intros p. rewrite lookup_foldl_alter, list_lookup_fmap.
  case_decide as Hp; [done|].
  rewrite (lookup_ge_None_2 l p) by lia. done.
Qed.

Lemma insert_as_alter {A : Type} (h : A -> A) (l : list A) (k : nat) (a : A) :
  l !! k = Some a -> <[k := h a]> l = alter h k l.
Proof.
  intros Hk. apply list_eq. intros p.
  destruct (decide (p = k)) as [->|Hne].
  - rewrite list_lookup_insert_eq by (by eapply lookup_lt_Some).
    by rewrite list_lookup_alter_eq, Hk.
  - by rewrite list_lookup_insert_ne, list_lookup_alter_ne.
Qed.

Lemma special_row_ok (fuel : nat) (f : LayerStore -> LayerStore) (i n : nat) :
  forall (k : nat) (g : ArrayR.t (ArrayR.t LayerStore))
         (row : ArrayR.t LayerStore),
  g !! i = Some (Some row) ->
  (forall j : nat, k <= j < k + n ->
     exists c : LayerStore,
       row !! j = Some (Some c)
       /\ LayerStore_special fuel get_layers c = Ok (f c)) ->
  Grid_special_row fuel get_layers i (seq k n) g
  = Ok (<[i := Some (foldl (fun r j => alter (square_map f) j r) row (seq k n))]> g).
Proof.
  induction n as [|n IH]; intros k g row Hrow Hcells; simpl.
  - f_equal. symmetry. by apply list_insert_id.
  - destruct (Hcells k) as (c & Hc & Hsp); [lia|].
    unfold Grid_special_square, ArrayR.getitem. rewrite Hrow. simpl.
    rewrite Hc. simpl. rewrite Hsp. simpl.
    pose proof (insert_as_alter (square_map f) row k (Some c) Hc) as Halt.
    change (square_map f (Some c)) with (Some (f c)) in Halt. rewrite Halt.
    erewrite IH.
    + by rewrite list_insert_insert_eq.
    + apply list_lookup_insert_eq. by eapply lookup_lt_Some.
    + intros j Hj. destruct (Hcells j) as (c' & Hc' & Hsp'); [lia|].
      exists c'. split; [|done]. rewrite list_lookup_alter_ne by lia. done.
Qed.

Lemma special_rows_ok (fuel : nat) (f : LayerStore -> LayerStore) (y n : nat) :
  forall (k : nat) (g : ArrayR.t (ArrayR.t LayerStore)),
  (forall i : nat, k <= i < k + n ->
     exists row : ArrayR.t LayerStore,
       g !! i = Some (Some row) /\ length row = y
       /\ forall j : nat, j < y ->
            exists c : LayerStore,
              row !! j = Some (Some c)
              /\ LayerStore_special fuel get_layers c = Ok (f c)) ->
  Grid_special_rows fuel get_layers y (seq k n) g
  = Ok (foldl (fun r i => alter (slot_map f) i r) g (seq k n)).
Proof.
  induction n as [|n IH]; intros k g Hrows; simpl; [done|].
  destruct (Hrows k) as (row & Hrow & Hlen & Hcells); [lia|].
  rewrite (special_row_ok fuel f k y 0 g row Hrow).
  - simpl. pose proof (foldl_alter_all (square_map f) row) as Hall.
    rewrite Hlen in Hall. rewrite Hall.
    pose proof (insert_as_alter (slot_map f) g k (Some row) Hrow) as Halt.
    change (slot_map f (Some row)) with (Some (square_map f <$> row)) in Halt.
    rewrite Halt. apply IH. intros i Hi.
    destruct (Hrows i) as (row' & Hrow' & Hlen' & Hcells'); [lia|].
    exists row'. split_and!; [|done..].
    rewrite list_lookup_alter_ne by lia. done.
  - intros j Hj. apply Hcells. lia.
Qed.

Lemma special_maps_squares (fuel : nat) (f : LayerStore -> LayerStore)
    (g : Grid.t) (m : list (list LayerStore)) :
  Grid.grid g = squares_of m ->
  length m = Grid.x g ->
  Forall (fun row => length row = Grid.y g) m ->
  Forall (Forall (fun c => LayerStore_special fuel get_layers c = Ok (f c))) m ->
  Grid_special fuel get_layers g
  = Ok (Grid.mk (Grid.draw_style g) (Grid.x g) (Grid.y g) (Grid.brush_size g)
          (squares_of (stores_map f m))).
Proof.
  intros Hgrid Hx Hy Hcells. unfold Grid_special.
  rewrite (special_rows_ok fuel f).
  - simpl. do 2 f_equal. rewrite Hgrid.
    replace (Grid.x g) with (length (squares_of m))
      by (unfold squares_of; by rewrite length_fmap).
    rewrite foldl_alter_all. unfold squares_of, stores_map.
    rewrite <- !list_fmap_compose. apply list_fmap_ext.
    intros _ row _. simpl. f_equal. unfold row_map.
    by rewrite <- !list_fmap_compose.
  - intros i Hi. rewrite Hgrid. unfold squares_of.
    destruct (lookup_lt_is_Some_2 m i) as [cells Hcellsi]; [lia|].
    exists (Some <$> cells). rewrite list_lookup_fmap, Hcellsi. simpl.
    rewrite Forall_forall in Hy. rewrite Forall_forall in Hcells.
    assert (cells ∈ m) as Hin by (by eapply list_elem_of_lookup_2).
    split_and!; [done|by rewrite length_fmap; apply Hy|].
    intros j Hj.
    destruct (lookup_lt_is_Some_2 cells j) as [c Hc];
      [by rewrite (Hy cells Hin)|].
    exists c. rewrite list_lookup_fmap, Hc. split; [done|].
    specialize (Hcells cells Hin). rewrite Forall_forall in Hcells.
    apply Hcells. by eapply list_elem_of_lookup_2.
Qed.

(** X10: [Grid.special] calls [special()] once on every square of the grid
    and on nothing else: when each of these calls returns, the grid holds,
    square by square, the store that call left, and the style, the dimensions
    and the brush size are as before. *)
Theorem grid_special_every_square (fuel : nat) (f : LayerStore -> LayerStore)
    (g : Grid.t) (m : list (list LayerStore)) :
  Grid.grid g = squares_of m ->
  length m = Grid.x g ->
  Forall (fun row => length row = Grid.y g) m ->
  Forall (Forall (fun c => LayerStore_special fuel get_layers c = Ok (f c))) m ->
  exists g' : Grid.t,
    Grid_special fuel get_layers g = Ok g'
    /\ Grid.draw_style g' = Grid.draw_style g
    /\ Grid.x g' = Grid.x g /\ Grid.y g' = Grid.y g
    /\ Grid.brush_size g' = Grid.brush_size g
    /\ forall i j : nat,
         Grid.cell g' i j = f <$> Grid.cell g i j.
Proof.
  intros Hgrid Hx Hy Hcells. eexists. split; [by apply special_maps_squares|].
  split_and!; [done..|].
  intros i j. unfold Grid.cell. simpl. rewrite Hgrid.
  unfold squares_of, stores_map. rewrite !list_lookup_fmap.
  destruct (m !! i) as [cells|]; simpl; [|done].
  rewrite !list_lookup_fmap. by destruct (cells !! j).
Qed.
Lemma toggled_special (fuel : nat) (c : LayerStore) :
  is_set_store c -> LayerStore_special fuel get_layers c = Ok (toggled c).
Proof. by destruct c. Qed.

Lemma toggled_twice (c : LayerStore) : toggled (toggled c) = c.
Proof.
  destruct c as [[held flag]| |]; simpl; [|done..].
  unfold SetLayerStore.special. simpl. by rewrite negb_involutive.
Qed.

(** X11: on a grid whose squares all hold set stores, [Grid.special] switches
    the special mode of every square, and calling it a second time gives the
    grid back as it was. *)
Theorem grid_special_set_twice (fuel : nat) (g : Grid.t)
    (m : list (list LayerStore)) :
  Grid.grid g = squares_of m ->
  length m = Grid.x g ->
  Forall (fun row => length row = Grid.y g) m ->
  Forall (Forall is_set_store) m ->
  exists g1 : Grid.t,
    Grid_special fuel get_layers g = Ok g1
    /\ Grid.grid g1 = squares_of (stores_map toggled m)
    /\ Grid_special fuel get_layers g1 = Ok g.
Proof.
  intros Hgrid Hx Hy Hset. eexists. split_and!.
  - apply (special_maps_squares fuel toggled g m); [done..|].
    eapply Forall_impl; [exact Hset|]. intros row Hrow.
    eapply Forall_impl; [exact Hrow|]. intros c Hc. by apply toggled_special.
  - done.
  - rewrite (special_maps_squares fuel toggled _ (stores_map toggled m)).
    + simpl. destruct g as [style gx gy brush squares]. simpl in *.
      do 2 f_equal. rewrite Hgrid. f_equal. unfold stores_map.
      rewrite <- list_fmap_compose. rewrite <- (list_fmap_id m) at 2.
      apply list_fmap_ext. intros _ row _. simpl.
      rewrite <- list_fmap_compose. rewrite <- (list_fmap_id row) at 2.
      apply list_fmap_ext. intros _ c _. apply toggled_twice.
    + done.
    + simpl. unfold stores_map. by rewrite length_fmap.
    + simpl. unfold stores_map. apply Forall_fmap.
      eapply Forall_impl; [exact Hy|]. intros row Hrow. simpl.
      by rewrite length_fmap.
    + unfold stores_map. apply Forall_fmap.
      eapply Forall_impl; [exact Hset|]. intros row Hrow. simpl.
      apply Forall_fmap. eapply Forall_impl; [exact Hrow|].
      intros c Hc. simpl. apply toggled_special. by destruct c.
Qed.

(** X12: indexing a constructed grid with [grid[i]] gives row [i] when
    [i < x] and raises an IndexError otherwise; indexing that row with [j]
    gives the square's store when [j < y] and raises an IndexError
    otherwise. *)
Theorem grid_getitem_bounds (draw_style : string) (x y i j : nat) :
  exists (g : Grid.t) (store : LayerStore) (row : ArrayR.t LayerStore),
    Grid.init get_layers draw_style x y = Ok g
    /\ length row = y
    /\ Grid.getitem g i
       = (if decide (i < x) then Ok (Some row) else Raise IndexError)
    /\ ArrayR.getitem row j
       = (if decide (j < y) then Ok (Some store) else Raise IndexError).
Proof.
  eexists _, (Grid.new_store get_layers draw_style),
    (replicate y (Some (Grid.new_store get_layers draw_style))).
  split; [apply init_ok|]. split; [apply length_replicate|].
  unfold Grid.getitem, ArrayR.getitem. simpl. split.
  - case_decide as Hi.
    + by rewrite lookup_replicate_2.
    + by rewrite (proj1 (lookup_replicate_None _ _ _)) by lia.
  - case_decide as Hj.
    + by rewrite lookup_replicate_2.
    + by rewrite (proj1 (lookup_replicate_None _ _ _)) by lia.
Qed.

(** X13: the constructor gives a "SET" grid a fresh [SetLayerStore] in every
    square and an "ADD" grid a fresh [AdditiveLayerStore] in every square,
    empty and of capacity 100 times the catalog size; either grid has the
    dimensions and style asked for and the default brush size. *)
Theorem init_set_and_add_styles (x y : nat) :
  Grid.init get_layers Grid.DRAW_STYLE_SET x y
  = Ok (Grid.mk "SET" x y 2
          (squares_of (replicate x (replicate y
             (SetStore (SetLayerStore.mk None false))))))
  /\ Grid.init get_layers Grid.DRAW_STYLE_ADD x y
     = Ok (Grid.mk "ADD" x y 2
             (squares_of (replicate x (replicate y
                (AdditiveStore (additive_of (length get_layers * 100) []))))))
  /\ Grid.init get_layers Grid.DRAW_STYLE_SEQUENCE x y
     = Ok (Grid.mk "SEQUENCE" x y 2
             (squares_of (replicate x (replicate y
                (SequenceStore (sequence_of [])))))).
Proof.
  unfold squares_of. rewrite !fmap_replicate. split_and!; apply init_ok.
Qed.
End GridSpecial.

(** ** Further properties of [ReplayTracker] *)

Section ReplayTrackerMore.

(** X14: when the effect of the oldest entry raises, the [except] clause of
    [play_next_action] catches that exception too: the call returns true,
    as it does on an empty log, although the entry has been taken off the log
    and the grid is left as the failed effect left it. *)
Theorem play_swallows_effect_error (self : ReplayTracker.t) (g g' : Grid.t)
    (err : exn) (action : PaintAction.t) (is_undo : bool)
    (rest : list (PaintAction.t * bool)) :
  CircularQueue.items self.(ReplayTracker.action_queue)
    = (action, is_undo) :: rest ->
  (if is_undo then PaintAction.undo_apply action g
   else PaintAction.redo_apply action g) = (g', Some err) ->
  ReplayTracker.play_next_action self g
  = (true,
     ReplayTracker.mk
       (CircularQueue.mk
          (CircularQueue.capacity self.(ReplayTracker.action_queue)) rest),
     g').
Proof.
  intros Hitems Heff.
  by apply (play_effect_raises self g g' err (action, is_undo) rest).
Qed.

(** X15: [clear] drops every logged entry and leaves the capacity alone:
    right after it [play_next_action] returns true without touching the
    grid, and entries recorded afterwards are logged as on a new tracker of
    that capacity, the first ones up to the capacity being kept. *)
Theorem clear_restarts_log (self : ReplayTracker.t) (g : Grid.t)
    (entries : list (PaintAction.t * bool)) :
  let cap := CircularQueue.capacity self.(ReplayTracker.action_queue) in
  ReplayTracker.play_next_action (ReplayTracker.clear self) g
  = (true, ReplayTracker.clear self, g)
  /\ record_all entries (ReplayTracker.clear self)
     = Ok (ReplayTracker.mk (CircularQueue.mk cap (take cap entries))).
Proof.
  intros cap. split.
  - by apply play_empty.
  - unfold ReplayTracker.clear, CircularQueue.clear. fold cap.
    by rewrite record_all_keeps_first by (simpl; lia).
Qed.
End ReplayTrackerMore.

(** ** The further properties on concrete stores *)

(** Adding invert to black, lighten and erasing leaves lighten, invert. *)
Lemma additive_erase_oldest_witness :
  exists self1 : AdditiveLayerStore.t,
    AdditiveLayerStore.add (additive_of 5 [black; lighten]) invert = Ok (true, self1)
    /\ AdditiveLayerStore.erase self1 invert
       = (true, additive_of 5 [lighten; invert]).
Proof.
  destruct (additive_erase_oldest (additive_of 5 [black; lighten]) invert invert)
    as [_ (self1 & Hadd & Herase)].
  - simpl. lia.
  - exists self1. split; [exact Hadd|exact Herase].
Defined.

(** Lighten added on top of black turns (0, 0, 0) into (40, 40, 40). *)
Lemma additive_add_applies_last_witness :
  exists self1 : AdditiveLayerStore.t,
    AdditiveLayerStore.add (additive_of 5 [black]) lighten = Ok (true, self1)
    /\ AdditiveLayerStore.get_color self1 (10, 20, 30)%Z 0 0 0
       = Ok ((40, 40, 40)%Z, self1).
Proof.
  destruct (additive_add_applies_last (additive_of 5 [black]) lighten
              (10, 20, 30)%Z 0 0 0)
    as (self1 & before & Hadd & Hbefore & Hafter).
  - simpl. lia.
  - exists self1. split; [exact Hadd|].
    rewrite Hafter. injection Hbefore as <-. reflexivity.
Defined.

(** Black, lighten, invert reversed: invert, then lighten, then black. *)
Lemma additive_special_then_get_color_witness :
  exists self1 : AdditiveLayerStore.t,
    AdditiveLayerStore.special 4 (additive_of 5 [black; lighten; invert]) = Ok self1
    /\ AdditiveLayerStore.get_color self1 (10, 20, 30)%Z 0 0 0
       = Ok ((0, 0, 0)%Z, self1).
Proof.
  destruct (additive_special_then_get_color 4
              (additive_of 5 [black; lighten; invert]) (10, 20, 30)%Z 0 0 0)
    as (self1 & Hsp & Hcol).
  - unfold additive_wf, CircularQueue.len. simpl. lia.
  - unfold additive_content. simpl. lia.
  - exists self1. split; [exact Hsp|]. rewrite Hcol. reflexivity.
Defined.

(** [Grid.special] on the 2 x 2 grid of empty set stores. *)
Lemma grid_special_every_square_witness :
  exists g' : Grid.t,
    Grid_special 1 sample_catalog sample_grid = Ok g'
    /\ Grid.brush_size g' = 2%Z
    /\ Grid.cell g' 1 0 = Some (SetStore (SetLayerStore.mk None true)).
Proof.
  destruct (grid_special_every_square sample_catalog 1 toggled sample_grid
              (replicate 2 (replicate 2 (SetStore SetLayerStore.init))))
    as (g' & Hsp & _ & _ & _ & Hbrush & Hcell).
  - reflexivity.
  - reflexivity.
  - repeat constructor.
  - repeat constructor.
  - exists g'. split_and!; [exact Hsp|exact Hbrush|].
    rewrite Hcell. reflexivity.
Defined.

(** [Grid.special] twice on the 2 x 2 grid of empty set stores. *)
Lemma grid_special_set_twice_witness :
  exists g1 : Grid.t,
    Grid_special 1 sample_catalog sample_grid = Ok g1
    /\ Grid.cell g1 0 1 = Some (SetStore (SetLayerStore.mk None true))
    /\ Grid_special 1 sample_catalog g1 = Ok sample_grid.
Proof.
  destruct (grid_special_set_twice sample_catalog 1 sample_grid
              (replicate 2 (replicate 2 (SetStore SetLayerStore.init))))
    as (g1 & Hsp & Hgrid & Hback).
  - reflexivity.
  - reflexivity.
  - repeat constructor.
  - repeat constructor.
  - exists g1. split_and!; [exact Hsp| |exact Hback].
    unfold Grid.cell. rewrite Hgrid. reflexivity.
Defined.

(** A step on row 5 of a 2 x 2 grid raises; the call still returns true. *)
Lemma play_swallows_effect_error_witness :
  ReplayTracker.play_next_action
    (tracker_with [(paint 5 0 black, false); (paint 0 0 black, false)])
    sample_grid
  = (true, tracker_with [(paint 0 0 black, false)], sample_grid).
Proof.
  apply (play_swallows_effect_error
           (tracker_with [(paint 5 0 black, false); (paint 0 0 black, false)])
           sample_grid sample_grid IndexError (paint 5 0 black) false
           [(paint 0 0 black, false)]); reflexivity.
Defined.
